(** * calendar-sync: the reconciliation engine of [src/index.js]

    A shallow embedding of the Cloudflare worker that mirrors an Outlook ICS
    feed into a Google calendar, and the properties of its reconciler
    ([syncEvents]), change detector ([hasEventChanged]), destination writers
    ([createGoogleEvent], [updateGoogleEvent], [deleteGoogleEvent]) and of the
    HTTP entry point ([fetch]). *)

From Stdlib Require Import String Ascii List Arith Lia DecimalString.
From stdpp Require Import base decidable option list strings gmap.

Local Open Scope string_scope.
Local Open Scope list_scope.

(** ** JavaScript values at the granularity the program uses them *)

(** A property that may be [undefined] (or [null]) is an [option]; the only
    falsy string is the empty one. *)
Definition truthy (s : string) : bool := negb (String.eqb s "").

Definition truthy_opt (o : option string) : bool :=
  match o with
  | Some s => truthy s
  | None => false
  end.

(** [a || b] on two values that are a string or null. *)
Definition or_else (a b : option string) : option string :=
  if truthy_opt a then a else b.

(** [s.split(sep)[0]]: the text before the first occurrence of [sep], the
    whole string when [sep] does not occur. *)
Fixpoint split_first (sep : ascii) (s : string) : string :=
  match s with
  | EmptyString => EmptyString
  | String c rest =>
      if Ascii.eqb c sep then EmptyString else String c (split_first sep rest)
  end.

(** Whether a character occurs in a string. *)
Fixpoint occurs (c : ascii) (s : string) : bool :=
  match s with
  | EmptyString => false
  | String d rest => Ascii.eqb d c || occurs c rest
  end.

(** ** Data model *)

Module Attendee.
Record t := mk { email : string; displayName : string; responseStatus : string }.
End Attendee.

Module Organizer.
Record t := mk { email : string; displayName : string }.
End Organizer.

(** One event of the source snapshot, as [parseICS] builds it. [lastModified]
    is [undefined] when the VEVENT has neither LAST-MODIFIED nor DTSTAMP. *)
Module OutlookEvent.
Record t := mk {
  uid : string;
  summary : string;
  description : string;
  location : string;
  start : string;
  end_ : string;
  isAllDay : bool;
  lastModified : option string;
  attendees : list Attendee.t;
  organizer : option Organizer.t
}.
End OutlookEvent.

(** The value of a [start]/[end] field: [{ date: d }] or [{ dateTime: t }]. *)
Inductive EventTime :=
| date (d : string)
| dateTime (t : string).

(** The object [googleEventBody] built in [syncEvents] and sent as JSON.
    [extendedProperties.private.outlookSyncUid] and [.outlookLastModified] are
    flattened into two fields. A field that the code does not set, or sets to
    [undefined], is left out by [JSON.stringify]: it is [None] here. *)
Module EventBody.
Record t := mk {
  summary : string;
  description : string;
  location : string;
  outlookSyncUid : string;
  outlookLastModified : option string;
  attendees : option (list Attendee.t);
  organizer : option Organizer.t;
  start : EventTime;
  end_ : EventTime
}.
End EventBody.

(** An item of the destination snapshot, as the calendar API returns it. Every
    property but [id] may be missing; [outlookSyncUid] is
    [event.extendedProperties?.private?.outlookSyncUid]. *)
Module GoogleEvent.
Record t := mk {
  id : string;
  summary : option string;
  description : option string;
  location : option string;
  outlookSyncUid : option string;
  outlookLastModified : option string;
  attendees : option (list Attendee.t);
  organizer : option Organizer.t;
  start : option EventTime;
  end_ : option EventTime
}.
End GoogleEvent.

Module Stats.
Record t := mk { created : nat; updated : nat; deleted : nat; unchanged : nat }.
Definition zero : t := mk 0 0 0 0.
Definition created_incr (s : t) : t := mk (S (created s)) (updated s) (deleted s) (unchanged s).
Definition updated_incr (s : t) : t := mk (created s) (S (updated s)) (deleted s) (unchanged s).
Definition deleted_incr (s : t) : t := mk (created s) (updated s) (S (deleted s)) (unchanged s).
Definition unchanged_incr (s : t) : t := mk (created s) (updated s) (deleted s) (S (unchanged s)).
End Stats.

Record SyncResult := { stats : Stats.t; timestamp : string }.

#[global] Instance Attendee_eq_dec : EqDecision Attendee.t.
Proof. solve_decision. Defined.
#[global] Instance Organizer_eq_dec : EqDecision Organizer.t.
Proof. solve_decision. Defined.
#[global] Instance EventTime_eq_dec : EqDecision EventTime.
Proof. solve_decision. Defined.
#[global] Instance EventBody_eq_dec : EqDecision EventBody.t.
Proof. solve_decision. Defined.
#[global] Instance GoogleEvent_eq_dec : EqDecision GoogleEvent.t.
Proof. solve_decision. Defined.

(** ** The desired destination representation (lines 208-237 of [syncEvents]) *)

Definition googleEventBody (outlookEvent : OutlookEvent.t) : EventBody.t :=
  {| EventBody.summary := OutlookEvent.summary outlookEvent;
     EventBody.description := OutlookEvent.description outlookEvent;
     EventBody.location := OutlookEvent.location outlookEvent;
     EventBody.outlookSyncUid := OutlookEvent.uid outlookEvent;
     EventBody.outlookLastModified := OutlookEvent.lastModified outlookEvent;
     EventBody.attendees :=
       if Nat.ltb 0 (length (OutlookEvent.attendees outlookEvent))
       then Some (OutlookEvent.attendees outlookEvent) else None;
     EventBody.organizer :=
       match OutlookEvent.organizer outlookEvent with
       | Some o => if truthy (Organizer.email o) then Some o else None
       | None => None
       end;
     EventBody.start :=
       if OutlookEvent.isAllDay outlookEvent
       then date (split_first "T" (OutlookEvent.start outlookEvent))
       else dateTime (OutlookEvent.start outlookEvent);
     EventBody.end_ :=
       if OutlookEvent.isAllDay outlookEvent
       then date (split_first "T" (OutlookEvent.end_ outlookEvent))
       else dateTime (OutlookEvent.end_ outlookEvent) |}.

(** ** [hasEventChanged] *)

(** [x !== s] for a property [x] that may be missing and a string [s]. *)
Definition differs (x : option string) (s : string) : bool :=
  negb (bool_decide (x = Some s)).

Definition hasEventChanged (googleEvent : GoogleEvent.t) (newEventBody : EventBody.t) : bool :=
  differs (GoogleEvent.summary googleEvent) (EventBody.summary newEventBody)
  || differs (GoogleEvent.description googleEvent) (EventBody.description newEventBody)
  || differs (GoogleEvent.location googleEvent) (EventBody.location newEventBody).

(** ** [Map] keyed by strings

    A JavaScript [Map] iterates in insertion order, and [set] on a key that
    is present replaces the value where the key already stands. *)
Module JsMap.
Abbreviation t V := (list (string * V)) (only parsing).

Definition empty {V} : t V := [].

Fixpoint get {V} (m : t V) (k : string) : option V :=
  match m with
  | [] => None
  | (k', v) :: m' => if decide (k' = k) then Some v else get m' k
  end.

Fixpoint set {V} (m : t V) (k : string) (v : V) : t V :=
  match m with
  | [] => [(k, v)]
  | (k', v') :: m' =>
      if decide (k' = k) then (k, v) :: m' else (k', v') :: set m' k v
  end.
End JsMap.

(** ** HTTP requests and responses *)

Inductive Method := GET | POST | PATCH | DELETE.

Inductive ContentType := ApplicationJson | FormUrlEncoded.

(** The query of [getGoogleCalendarEvents]. *)
Record ListParams := {
  timeMin : string; timeMax : string; maxResults : string; singleEvents : string
}.

Inductive Url :=
| OAuthTokenUrl                                      (* https://oauth2.googleapis.com/token *)
| FeedUrl (url : string)                             (* OUTLOOK_ICS_URL *)
| EventsUrl (calendarId : string) (params : option ListParams)
                                                     (* .../calendars/<calendarId>/events[?params] *)
| EventUrl (calendarId eventId : string).            (* .../calendars/<calendarId>/events/<eventId> *)

Inductive Payload :=
| NoBody
| TokenForm (client_id client_secret refresh_token grant_type : string)
| EventJson (eventBody : EventBody.t).                (* JSON.stringify(eventBody) *)

Record Request := {
  method : Method;
  url : Url;
  authorization : option string;                     (* Authorization: Bearer <token> *)
  contentType : option ContentType;
  body : Payload
}.

Record Response := { status : nat; text : string }.

(** [response.ok]: the status is in the range 200-299. *)
Definition ok (r : Response) : bool :=
  Nat.leb 200 (status r) && Nat.leb (status r) 299.

#[global] Instance Method_eq_dec : EqDecision Method.
Proof. solve_decision. Defined.
#[global] Instance ListParams_eq_dec : EqDecision ListParams.
Proof. solve_decision. Defined.
#[global] Instance Url_eq_dec : EqDecision Url.
Proof. solve_decision. Defined.

(** ** Console *)

Inductive Level := Info | Error.

(** One line per [console.log] / [console.error] call of the source, holding
    the values interpolated into its template. *)
Inductive Message :=
| Starting
| GotAccessToken
| FailedToFetchICS (status : nat)
| FetchedICS
| Parsed (n : nat)
| FoundExisting (n : nat)
| Completed (s : Stats.t)
| SyncError (message : string)
| Created (summary start : string)
| Updated (summary start : string)
| Deleted (summary : option string)
| FailedToCreate (error : string)
| FailedToUpdate (error : string)
| FailedToDelete (error : string).

(** ** Effects: network, console, exceptions *)

Inductive Outcome (A : Type) :=
| Returned (a : A)
| Thrown (message : string).
Arguments Returned {A} a.
Arguments Thrown {A} message.

Section Worker.
(** The world outside the worker: whatever answers HTTP requests and tells
    the time. A call of the global [fetch] either resolves to a response or
    rejects with a message. *)
Context {W : Type}.
Variable network : Request -> W -> (Response + string) * W.
Variable now : W -> string.                         (* new Date().toISOString() *)
Variable windowMin windowMax : W -> string.         (* now - 30 days, now + 1 year *)

(** Third-party decoders: [response.json()] followed by the property read,
    and ical.js. [None] stands for a thrown exception. *)
Variable json_access_token : string -> option string.
Variable json_items : string -> option (list GoogleEvent.t).
Variable parseICS : string -> option (list OutlookEvent.t).

(** The state threaded through a run: the world, every request handed to
    [fetch] so far (oldest first), every console line so far. *)
Record Run := { world : W; sent : list Request; console : list (Level * Message) }.

Definition Eff (A : Type) := Run -> Outcome A * Run.

Definition ret {A} (a : A) : Eff A := fun r => (Returned a, r).

Definition bind {A B} (m : Eff A) (k : A -> Eff B) : Eff B :=
  fun r =>
    match m r with
    | (Returned a, r') => k a r'
    | (Thrown e, r') => (Thrown e, r')
    end.

Definition throw {A} (message : string) : Eff A := fun r => (Thrown message, r).

Definition try_catch {A} (m : Eff A) (handler : string -> Eff A) : Eff A :=
  fun r =>
    match m r with
    | (Returned a, r') => (Returned a, r')
    | (Thrown e, r') => handler e r'
    end.

Definition console_log (m : Message) : Eff unit :=
  fun r => (Returned tt, {| world := world r; sent := sent r; console := console r ++ [(Info, m)] |}).

Definition console_error (m : Message) : Eff unit :=
  fun r => (Returned tt, {| world := world r; sent := sent r; console := console r ++ [(Error, m)] |}).

Definition fetch (req : Request) : Eff Response :=
  fun r =>
    let '(answer, w') := network req (world r) in
    let r' := {| world := w'; sent := sent r ++ [req]; console := console r |} in
    match answer with
    | inl response => (Returned response, r')
    | inr e => (Thrown e, r')
    end.

Definition read {A} (f : W -> A) : Eff A := fun r => (Returned (f (world r)), r).

Definition lift_option {A} (o : option A) (message : string) : Eff A :=
  match o with
  | Some a => ret a
  | None => throw message
  end.

Notation "'let!' x ':=' m 'in' k" := (bind m (fun x => k))
  (at level 10, x pattern, m at level 100, k at level 200).
Notation "m ';;' k" := (bind m (fun _ => k))
  (at level 100, k at level 200, right associativity).

(** [for (const x of xs) { body }], the locals the body assigns threaded
    through as [s]. *)
Fixpoint for_of {X S} (xs : list X) (body : X -> S -> Eff S) (s : S) : Eff S :=
  match xs with
  | [] => ret s
  | x :: xs' => let! s' := body x s in for_of xs' body s'
  end.

(** *** Destination writers *)

Definition createGoogleEvent (accessToken calendarId : string) (eventBody : EventBody.t) : Eff unit :=
  let! response := fetch {| method := POST;
                            url := EventsUrl calendarId None;
                            authorization := Some accessToken;
                            contentType := Some ApplicationJson;
                            body := EventJson eventBody |} in
  if negb (ok response)
  then console_error (FailedToCreate (text response))
  else ret tt.

Definition updateGoogleEvent (accessToken calendarId eventId : string) (eventBody : EventBody.t) : Eff unit :=
  let! response := fetch {| method := PATCH;
                            url := EventUrl calendarId eventId;
                            authorization := Some accessToken;
                            contentType := Some ApplicationJson;
                            body := EventJson eventBody |} in
  if negb (ok response)
  then console_error (FailedToUpdate (text response))
  else ret tt.

Definition deleteGoogleEvent (accessToken calendarId eventId : string) : Eff unit :=
  let! response := fetch {| method := DELETE;
                            url := EventUrl calendarId eventId;
                            authorization := Some accessToken;
                            contentType := None;
                            body := NoBody |} in
  if negb (ok response) && negb (Nat.eqb (status response) 404)
  then console_error (FailedToDelete (text response))
  else ret tt.

(** *** [syncEvents] *)

(** Lines 192-198: the map of destination items by Outlook UID. *)
Definition indexByUid (googleEvents : list GoogleEvent.t) : JsMap.t GoogleEvent.t :=
  fold_left
    (fun googleEventsByUid event =>
       match GoogleEvent.outlookSyncUid event with
       | Some uid => if truthy uid then JsMap.set googleEventsByUid uid event
                     else googleEventsByUid
       | None => googleEventsByUid
       end)
    googleEvents JsMap.empty.

(** Lines 204-255: the body of the loop over the source events; the locals
    it assigns are [stats] and [seenUids]. *)
Definition syncOne (accessToken calendarId : string)
    (googleEventsByUid : JsMap.t GoogleEvent.t)
    (outlookEvent : OutlookEvent.t) (locals : Stats.t * gset string)
    : Eff (Stats.t * gset string) :=
  let '(stats, seenUids) := locals in
  let seenUids := {[OutlookEvent.uid outlookEvent]} ∪ seenUids in
  let existingGoogleEvent := JsMap.get googleEventsByUid (OutlookEvent.uid outlookEvent) in
  let googleEventBody := googleEventBody outlookEvent in
  match existingGoogleEvent with
  | None =>
      createGoogleEvent accessToken calendarId googleEventBody ;;
      console_log (Created (OutlookEvent.summary outlookEvent) (OutlookEvent.start outlookEvent)) ;;
      ret (Stats.created_incr stats, seenUids)
  | Some existingGoogleEvent =>
      let existingLastModified := GoogleEvent.outlookLastModified existingGoogleEvent in
      if negb (bool_decide (existingLastModified = OutlookEvent.lastModified outlookEvent))
         || hasEventChanged existingGoogleEvent googleEventBody
      then
        updateGoogleEvent accessToken calendarId (GoogleEvent.id existingGoogleEvent) googleEventBody ;;
        console_log (Updated (OutlookEvent.summary outlookEvent) (OutlookEvent.start outlookEvent)) ;;
        ret (Stats.updated_incr stats, seenUids)
      else ret (Stats.unchanged_incr stats, seenUids)
  end.

(** Lines 258-264: the body of the loop over the entries of the map. *)
Definition deleteUnseen (accessToken calendarId : string) (seenUids : gset string)
    (entry : string * GoogleEvent.t) (stats : Stats.t) : Eff Stats.t :=
  let '(uid, googleEvent) := entry in
  if negb (bool_decide (uid ∈ seenUids))
  then
    deleteGoogleEvent accessToken calendarId (GoogleEvent.id googleEvent) ;;
    console_log (Deleted (GoogleEvent.summary googleEvent)) ;;
    ret (Stats.deleted_incr stats)
  else ret stats.

Definition syncEvents (accessToken calendarId : string)
    (outlookEvents : list OutlookEvent.t) (googleEvents : list GoogleEvent.t)
    : Eff SyncResult :=
  let stats := Stats.zero in
  let googleEventsByUid := indexByUid googleEvents in
  let seenUids : gset string := ∅ in
  let! (stats, seenUids) :=
    for_of outlookEvents (syncOne accessToken calendarId googleEventsByUid) (stats, seenUids) in
  let! stats :=
    for_of googleEventsByUid (deleteUnseen accessToken calendarId seenUids) stats in
  let! timestamp := read now in
  ret {| stats := stats; timestamp := timestamp |}.

(** *** The orchestrator *)

Record Env := {
  SYNC_TOKEN : option string;
  OUTLOOK_ICS_URL : string;
  GOOGLE_CLIENT_ID : string;
  GOOGLE_CLIENT_SECRET : string;
  GOOGLE_REFRESH_TOKEN : string;
  GOOGLE_CALENDAR_ID : string
}.

(** [`${n}`] for a number. *)
Definition decimal (n : nat) : string := NilZero.string_of_uint (Nat.to_uint n).

Definition getGoogleAccessToken (clientId clientSecret refreshToken : string) : Eff string :=
  let! response := fetch {| method := POST;
                            url := OAuthTokenUrl;
                            authorization := None;
                            contentType := Some FormUrlEncoded;
                            body := TokenForm clientId clientSecret refreshToken "refresh_token" |} in
  if negb (ok response)
  then throw ("Failed to get access token: " ++ text response)%string
  else lift_option (json_access_token (text response)) "Unexpected token in JSON".

Definition getGoogleCalendarEvents (accessToken calendarId : string) : Eff (list GoogleEvent.t) :=
  let! timeMin := read windowMin in
  let! timeMax := read windowMax in
  let params := {| timeMin := timeMin; timeMax := timeMax;
                   maxResults := "2500"; singleEvents := "false" |} in
  let! response := fetch {| method := GET;
                            url := EventsUrl calendarId (Some params);
                            authorization := Some accessToken;
                            contentType := None;
                            body := NoBody |} in
  if negb (ok response)
  then throw ("Failed to get Google events: " ++ text response)%string
  else lift_option (json_items (text response)) "Unexpected token in JSON".

Definition syncCalendars (env : Env) : Eff SyncResult :=
  console_log Starting ;;
  let! accessToken :=
    getGoogleAccessToken (GOOGLE_CLIENT_ID env) (GOOGLE_CLIENT_SECRET env)
                         (GOOGLE_REFRESH_TOKEN env) in
  console_log GotAccessToken ;;
  let! icsResponse := fetch {| method := GET;
                               url := FeedUrl (OUTLOOK_ICS_URL env);
                               authorization := None;
                               contentType := None;
                               body := NoBody |} in
  if negb (ok icsResponse)
  then
    console_error (FailedToFetchICS (status icsResponse)) ;;
    throw ("Failed to fetch ICS: " ++ decimal (status icsResponse))%string
  else
    let icsData := text icsResponse in
    console_log FetchedICS ;;
    let! outlookEvents := lift_option (parseICS icsData) "invalid ical body" in
    console_log (Parsed (length outlookEvents)) ;;
    let! googleEvents := getGoogleCalendarEvents accessToken (GOOGLE_CALENDAR_ID env) in
    console_log (FoundExisting (length googleEvents)) ;;
    let! result := syncEvents accessToken (GOOGLE_CALENDAR_ID env) outlookEvents googleEvents in
    console_log (Completed (stats result)) ;;
    ret result.

(** *** The HTTP entry point *)

(** What the handler reads of the incoming request: the path of its URL,
    the [X-Sync-Token] header and the [token] query parameter ([null] when
    absent). *)
Record Incoming := {
  pathname : string;
  header_X_Sync_Token : option string;
  searchParams_token : option string
}.

Inductive ReplyBody :=
| PlainText (s : string)
| ResultJson (result : SyncResult)                 (* JSON.stringify(result, null, 2) *)
| ErrorJson (error : string).                      (* JSON.stringify({ error }) *)

Record Reply := {
  reply_status : nat;
  reply_contentType : option ContentType;
  reply_body : ReplyBody
}.

(** [env.SYNC_TOKEN] is a string or [undefined] and [token] a string or
    [null]; [null !== undefined] holds, but then [!env.SYNC_TOKEN] already
    does, so comparing the two as options decides the same test. *)
Definition worker_fetch (request : Incoming) (env : Env) : Eff Reply :=
  if bool_decide (pathname request = "/sync") then
    let token := or_else (header_X_Sync_Token request) (searchParams_token request) in
    if negb (truthy_opt (SYNC_TOKEN env)) || negb (bool_decide (token = SYNC_TOKEN env))
    then ret {| reply_status := 401; reply_contentType := None;
                reply_body := PlainText "Unauthorized" |}
    else
      try_catch
        (let! result := syncCalendars env in
         ret {| reply_status := 200; reply_contentType := Some ApplicationJson;
                reply_body := ResultJson result |})
        (fun message =>
           console_error (SyncError message) ;;
           ret {| reply_status := 500; reply_contentType := Some ApplicationJson;
                  reply_body := ErrorJson "Sync failed" |})
  else ret {| reply_status := 404; reply_contentType := None;
              reply_body := PlainText "Not found" |}.

End Worker.

Arguments Run W : clear implicits.
Arguments Eff W A : clear implicits.

(** ** The requests the reconciler plans

    What [syncEvents] hands to [fetch] is determined by the two snapshots
    alone; the responses only decide what is logged and whether the run is
    cut short by a rejected [fetch]. *)

Definition createRequest (accessToken calendarId : string) (eventBody : EventBody.t) : Request :=
  {| method := POST; url := EventsUrl calendarId None;
     authorization := Some accessToken; contentType := Some ApplicationJson;
     body := EventJson eventBody |}.

Definition updateRequest (accessToken calendarId eventId : string) (eventBody : EventBody.t) : Request :=
  {| method := PATCH; url := EventUrl calendarId eventId;
     authorization := Some accessToken; contentType := Some ApplicationJson;
     body := EventJson eventBody |}.

Definition deleteRequest (accessToken calendarId eventId : string) : Request :=
  {| method := DELETE; url := EventUrl calendarId eventId;
     authorization := Some accessToken; contentType := None; body := NoBody |}.

(** The test of line 247. *)
Definition needsUpdate (existingGoogleEvent : GoogleEvent.t) (outlookEvent : OutlookEvent.t) : bool :=
  negb (bool_decide (GoogleEvent.outlookLastModified existingGoogleEvent
                     = OutlookEvent.lastModified outlookEvent))
  || hasEventChanged existingGoogleEvent (googleEventBody outlookEvent).

Definition uids (outlookEvents : list OutlookEvent.t) : list string :=
  map OutlookEvent.uid outlookEvents.

Section Plan.
Variable accessToken calendarId : string.
Variable googleEventsByUid : JsMap.t GoogleEvent.t.

Definition requestFor (outlookEvent : OutlookEvent.t) : option Request :=
  match JsMap.get googleEventsByUid (OutlookEvent.uid outlookEvent) with
  | None => Some (createRequest accessToken calendarId (googleEventBody outlookEvent))
  | Some existing =>
      if needsUpdate existing outlookEvent
      then Some (updateRequest accessToken calendarId (GoogleEvent.id existing)
                               (googleEventBody outlookEvent))
      else None
  end.

Definition tally (stats : Stats.t) (outlookEvent : OutlookEvent.t) : Stats.t :=
  match JsMap.get googleEventsByUid (OutlookEvent.uid outlookEvent) with
  | None => Stats.created_incr stats
  | Some existing =>
      if needsUpdate existing outlookEvent
      then Stats.updated_incr stats else Stats.unchanged_incr stats
  end.

Definition unseen (seenUids : gset string) (entry : string * GoogleEvent.t) : bool :=
  negb (bool_decide (entry.1 ∈ seenUids)).

Definition deletionFor (seenUids : gset string) (entry : string * GoogleEvent.t) : option Request :=
  if unseen seenUids entry
  then Some (deleteRequest accessToken calendarId (GoogleEvent.id entry.2))
  else None.

Definition tallyDeleted (seenUids : gset string) (stats : Stats.t)
    (entry : string * GoogleEvent.t) : Stats.t :=
  if unseen seenUids entry then Stats.deleted_incr stats else stats.

Definition planned (outlookEvents : list OutlookEvent.t) : list Request :=
  omap requestFor outlookEvents
  ++ omap (deletionFor (list_to_set (uids outlookEvents))) googleEventsByUid.

Definition plannedStats (outlookEvents : list OutlookEvent.t) : Stats.t :=
  fold_left (tallyDeleted (list_to_set (uids outlookEvents))) googleEventsByUid
    (fold_left tally outlookEvents Stats.zero).
End Plan.

Section Delivery.
Context {W : Type}.
Variable network : Request -> W -> (Response + string) * W.

(** Every call of [fetch] resolves to a response, whatever its status. *)
Definition answers : Prop :=
  forall req w, exists response w', network req w = (inl response, w').

(** Requests handed to [fetch] one after the other until one is rejected:
    those handed over, the rejection if any, the world afterwards. *)
Fixpoint deliver (reqs : list Request) (w : W) : list Request * option string * W :=
  match reqs with
  | [] => ([], None, w)
  | req :: rest =>
      match network req w with
      | (inl _, w') =>
          let '(handed, rejection, w'') := deliver rest w' in
          (req :: handed, rejection, w'')
      | (inr e, w') => ([req], Some e, w')
      end
  end.

(** The world after every request of a list was answered. *)
Definition after (reqs : list Request) (w : W) : W :=
  fold_left (fun w req => (network req w).2) reqs w.
(** A computation that hands the requests [reqs] to [fetch], in order and
    until one is rejected, and returns [a] if none is; what it logs is left
    open. *)
Definition performs {A} (m : Eff W A) (reqs : list Request) (a : A) : Prop :=
  forall r, exists c,
    m r =
      let '(handed, rejection, w') := deliver reqs (world r) in
      (match rejection with
       | None => Returned a
       | Some e => Thrown e
       end,
       {| world := w'; sent := sent r ++ handed; console := c |}).
End Delivery.

(** ** The destination calendar

    The remote collection the requests act on, as far as the three mutations
    of the reconciler are concerned. The calendar service is not part of the
    worker; it is modelled after the HTTP methods the worker uses:
    - POST on the collection stores the body as a new item under an
      identifier no item has yet;
    - PATCH on an item merges the body into it: a property present in the
      body replaces the item's, a property absent from the body is kept
      (the keys of [extendedProperties.private] one by one);
    - DELETE on an item removes it;
    - a PATCH or DELETE on an identifier no item has is answered 404.
    An item read back holds what was written ([JSON.stringify] having dropped
    the [undefined] properties). *)
Module Calendar.
Abbreviation t := (list GoogleEvent.t) (only parsing).

Definition ids (g : t) : list string := map GoogleEvent.id g.

(** An identifier longer than every identifier in use. *)
Definition freshId (g : t) : string :=
  String "e" (fold_right String.append "" (ids g)).

Definition insert (id : string) (b : EventBody.t) : GoogleEvent.t :=
  {| GoogleEvent.id := id;
     GoogleEvent.summary := Some (EventBody.summary b);
     GoogleEvent.description := Some (EventBody.description b);
     GoogleEvent.location := Some (EventBody.location b);
     GoogleEvent.outlookSyncUid := Some (EventBody.outlookSyncUid b);
     GoogleEvent.outlookLastModified := EventBody.outlookLastModified b;
     GoogleEvent.attendees := EventBody.attendees b;
     GoogleEvent.organizer := EventBody.organizer b;
     GoogleEvent.start := Some (EventBody.start b);
     GoogleEvent.end_ := Some (EventBody.end_ b) |}.

(** [new] when the body has the property, the item's own value otherwise. *)
Definition merged {A} (new old : option A) : option A :=
  match new with
  | Some a => Some a
  | None => old
  end.

Definition patch (b : EventBody.t) (x : GoogleEvent.t) : GoogleEvent.t :=
  {| GoogleEvent.id := GoogleEvent.id x;
     GoogleEvent.summary := Some (EventBody.summary b);
     GoogleEvent.description := Some (EventBody.description b);
     GoogleEvent.location := Some (EventBody.location b);
     GoogleEvent.outlookSyncUid := Some (EventBody.outlookSyncUid b);
     GoogleEvent.outlookLastModified :=
       merged (EventBody.outlookLastModified b) (GoogleEvent.outlookLastModified x);
     GoogleEvent.attendees := merged (EventBody.attendees b) (GoogleEvent.attendees x);
     GoogleEvent.organizer := merged (EventBody.organizer b) (GoogleEvent.organizer x);
     GoogleEvent.start := Some (EventBody.start b);
     GoogleEvent.end_ := Some (EventBody.end_ b) |}.

Definition has (id : string) (x : GoogleEvent.t) : bool :=
  bool_decide (GoogleEvent.id x = id).

Definition reply (status : nat) (text : string) : Response + string :=
  inl {| status := status; text := text |}.

Definition serve (req : Request) (g : t) : (Response + string) * t :=
  match method req, url req, body req with
  | POST, EventsUrl _ None, EventJson b =>
      (reply 200 "", g ++ [insert (freshId g) b])
  | PATCH, EventUrl _ id, EventJson b =>
      if existsb (has id) g
      then (reply 200 "", map (fun x => if has id x then patch b x else x) g)
      else (reply 404 "Not Found", g)
  | DELETE, EventUrl _ id, _ =>
      if existsb (has id) g
      then (reply 204 "", filter (fun x => has id x = false) g)
      else (reply 404 "Not Found", g)
  | _, _, _ => (reply 400 "Bad Request", g)
  end.

(** The clock plays no part in reconciliation. *)
Definition now (_ : t) : string := "1970-01-01T00:00:00.000Z".
End Calendar.

(** An item the reconciler takes for its own: it carries a non-empty
    [outlookSyncUid]. *)
Definition owned (x : GoogleEvent.t) : bool := truthy_opt (GoogleEvent.outlookSyncUid x).

(** The key under which [indexByUid] files an item: its [outlookSyncUid] when
    that is a non-empty string. *)
Definition ownedUid (x : GoogleEvent.t) : option string :=
  match GoogleEvent.outlookSyncUid x with
  | Some uid => if truthy uid then Some uid else None
  | None => None
  end.

(** The entries of the map whose uid is not the uid of any source event. *)
Definition disappeared (outlookEvents : list OutlookEvent.t)
    (googleEventsByUid : JsMap.t GoogleEvent.t) : list (string * GoogleEvent.t) :=
  filter (fun entry => entry.1 ∉ uids outlookEvents) googleEventsByUid.

(** How many requests of a list use a given method. *)
Definition countMethod (m : Method) (reqs : list Request) : nat :=
  length (filter (fun req => method req = m) reqs).

(** The identifier of the item a request addresses, if it addresses one. *)
Definition target (req : Request) : option string :=
  match url req with
  | EventUrl _ eventId => Some eventId
  | _ => None
  end.

(** A run from a state with nothing sent and nothing logged. *)
Definition fresh_run {W} (w : W) : Run W := {| world := w; sent := []; console := [] |}.

(** One reconciliation of the source snapshot against the calendar: the
    destination snapshot is the whole content of the calendar. *)
Definition reconcile (accessToken calendarId : string)
    (outlookEvents : list OutlookEvent.t) (g : Calendar.t)
    : Outcome SyncResult * Run Calendar.t :=
  syncEvents Calendar.serve Calendar.now accessToken calendarId outlookEvents g (fresh_run g).

(** ** The invariant of a reconciliation against the calendar

    [g] is the snapshot the run started from, [done] the source events
    processed so far, [deleted] the map entries the deletion pass went
    through so far, [h] the calendar now:
    - identifiers are pairwise distinct;
    - an item with a non-empty uid either belongs to a processed source event
      and needs no update against it, or stands untouched since the snapshot;
    - an item of the snapshot whose uid was not processed yet is still there;
    - every processed source event has an item. *)
Definition settled (g : list GoogleEvent.t) (done : list OutlookEvent.t)
    (deleted : list (string * GoogleEvent.t)) (h : Calendar.t) : Prop :=
  NoDup (Calendar.ids h)
  /\ (forall y u, y ∈ h -> ownedUid y = Some u ->
        (exists e, e ∈ done /\ OutlookEvent.uid e = u /\ needsUpdate y e = false)
        \/ ((u ∉ uids done) /\ y ∈ g /\ (u, y) ∉ deleted))
  /\ (forall x u, x ∈ g -> ownedUid x = Some u -> u ∉ uids done -> (u, x) ∉ deleted -> x ∈ h)
  /\ (forall e, e ∈ done -> exists y, y ∈ h /\ ownedUid y = Some (OutlookEvent.uid e)).

(** ** [mapResponseStatus] (lines 88-96) *)

(** [map[partstat]] on an object literal also finds the members inherited
    from [Object.prototype]; they are functions (an object for [__proto__]),
    hence truthy, and are then what [mapResponseStatus] returns. *)
Definition inheritedNames : list string :=
  ["constructor"; "__defineGetter__"; "__defineSetter__"; "hasOwnProperty";
   "__lookupGetter__"; "__lookupSetter__"; "isPrototypeOf"; "propertyIsEnumerable";
   "toString"; "valueOf"; "__proto__"; "toLocaleString"].

Inductive Mapped :=
| Text (s : string)
| Inherited (name : string).

#[global] Instance Mapped_eq_dec : EqDecision Mapped.
Proof. solve_decision. Defined.

Definition mapResponseStatus (partstat : string) : Mapped :=
  if decide (partstat = "ACCEPTED") then Text "accepted"
  else if decide (partstat = "DECLINED") then Text "declined"
  else if decide (partstat = "TENTATIVE") then Text "tentative"
  else if decide (partstat = "NEEDS-ACTION") then Text "needsAction"
  else if bool_decide (partstat ∈ inheritedNames) then Inherited partstat
  else Text "needsAction".

(** ** [parseICS] (lines 98-135): the callback applied to each VEVENT *)

(** [s] without a leading [p], if [s] starts with [p]. *)
Fixpoint strip_prefix (p s : string) : option string :=
  match p, s with
  | EmptyString, _ => Some s
  | String a p', String b s' => if Ascii.eqb a b then strip_prefix p' s' else None
  | String _ _, EmptyString => None
  end.

(** [s.replace(pattern, '')] for a string pattern: the first occurrence of
    the pattern is removed. *)
Fixpoint remove_first (pattern s : string) : string :=
  match strip_prefix pattern s with
  | Some rest => rest
  | None =>
      match s with
      | EmptyString => EmptyString
      | String c s' => String c (remove_first pattern s')
      end
  end.

(** [a || b] for a string or undefined [a] and a string [b]. *)
Definition or_default (a : option string) (b : string) : string :=
  match a with
  | Some s => if truthy s then s else b
  | None => b
  end.

(** What ical.js hands to the callback. A property (ATTENDEE, ORGANIZER) is
    read through [getFirstValue()] and [getParameter(..)]; of the event, the
    callback reads [uid], [summary], [description], [location], the start and
    end as [toJSDate().toISOString()], [startDate.isDate], and the
    LAST-MODIFIED and DTSTAMP values, again as ISO strings, when present. *)
Module ICal.
Record Property := {
  firstValue : option string;
  cn : option string;
  partstat : option string
}.

Record VEvent := {
  uid : string;
  summary : option string;
  description : option string;
  location : option string;
  startDate : string;
  endDate : string;
  isDate : bool;
  last_modified : option string;
  dtstamp : option string;
  attendee : list Property;
  organizer : option Property
}.
End ICal.

(** An attendee as the callback builds it; [responseStatus] is whatever
    [mapResponseStatus] returned. *)
Module ParsedAttendee.
Record t := mk { email : string; displayName : string; responseStatus : Mapped }.
End ParsedAttendee.

(** The object the callback returns: an [OutlookEvent.t] but for the type of
    the attendees' [responseStatus]. *)
Module ParsedEvent.
Record t := mk {
  uid : string;
  summary : string;
  description : string;
  location : string;
  start : string;
  end_ : string;
  isAllDay : bool;
  lastModified : option string;
  attendees : list ParsedAttendee.t;
  organizer : option Organizer.t
}.
End ParsedEvent.

(** The email of a property: [getFirstValue()?.replace('mailto:', '') || '']. *)
Definition emailOf (p : ICal.Property) : string :=
  match ICal.firstValue p with
  | Some v => remove_first "mailto:" v
  | None => ""
  end.

(** Lines 107-111: the callback of the first [map] over the attendees. *)
Definition parseAttendee (attendee : ICal.Property) : ParsedAttendee.t :=
  let email := emailOf attendee in
  let cn := or_default (ICal.cn attendee) email in
  let partstat := or_default (ICal.partstat attendee) "NEEDS-ACTION" in
  {| ParsedAttendee.email := email;
     ParsedAttendee.displayName := cn;
     ParsedAttendee.responseStatus := mapResponseStatus partstat |}.

(** Lines 115-119. *)
Definition parseOrganizer (organizerProp : option ICal.Property) : option Organizer.t :=
  match organizerProp with
  | Some p => Some {| Organizer.email := emailOf p;
                      Organizer.displayName := or_default (ICal.cn p) "" |}
  | None => None
  end.

(** Lines 103-134. *)
Definition parseVEvent (vevent : ICal.VEvent) : ParsedEvent.t :=
  let attendees :=
    List.filter (fun a => truthy (ParsedAttendee.email a))
                (map parseAttendee (ICal.attendee vevent)) in
  let organizer := parseOrganizer (ICal.organizer vevent) in
  {| ParsedEvent.uid := ICal.uid vevent;
     ParsedEvent.summary := or_default (ICal.summary vevent) "(No title)";
     ParsedEvent.description := or_default (ICal.description vevent) "";
     ParsedEvent.location := or_default (ICal.location vevent) "";
     ParsedEvent.start := ICal.startDate vevent;
     ParsedEvent.end_ := ICal.endDate vevent;
     ParsedEvent.isAllDay := ICal.isDate vevent;
     ParsedEvent.lastModified := or_else (ICal.last_modified vevent) (ICal.dtstamp vevent);
     ParsedEvent.attendees := attendees;
     ParsedEvent.organizer := organizer |}.

(** A parsed attendee whose [responseStatus] is a string, as the rest of the
    worker passes it on. *)
Definition toAttendee (a : ParsedAttendee.t) : option Attendee.t :=
  match ParsedAttendee.responseStatus a with
  | Text s => Some {| Attendee.email := ParsedAttendee.email a;
                      Attendee.displayName := ParsedAttendee.displayName a;
                      Attendee.responseStatus := s |}
  | Inherited _ => None
  end.

(** A parsed event all of whose attendees are such. *)
Definition toOutlookEvent (p : ParsedEvent.t) : option OutlookEvent.t :=
  match mapM toAttendee (ParsedEvent.attendees p) with
  | Some attendees =>
      Some {| OutlookEvent.uid := ParsedEvent.uid p;
              OutlookEvent.summary := ParsedEvent.summary p;
              OutlookEvent.description := ParsedEvent.description p;
              OutlookEvent.location := ParsedEvent.location p;
              OutlookEvent.start := ParsedEvent.start p;
              OutlookEvent.end_ := ParsedEvent.end_ p;
              OutlookEvent.isAllDay := ParsedEvent.isAllDay p;
              OutlookEvent.lastModified := ParsedEvent.lastModified p;
              OutlookEvent.attendees := attendees;
              OutlookEvent.organizer := ParsedEvent.organizer p |}
  | None => None
  end.

(** ** The requests of the orchestrator (lines 137-186, 59) *)

Definition tokenRequest (env : Env) : Request :=
  {| method := POST; url := OAuthTokenUrl; authorization := None;
     contentType := Some FormUrlEncoded;
     body := TokenForm (GOOGLE_CLIENT_ID env) (GOOGLE_CLIENT_SECRET env)
                       (GOOGLE_REFRESH_TOKEN env) "refresh_token" |}.

Definition feedRequest (env : Env) : Request :=
  {| method := GET; url := FeedUrl (OUTLOOK_ICS_URL env); authorization := None;
     contentType := None; body := NoBody |}.

Definition listRequest (accessToken : string) (env : Env) (timeMin timeMax : string) : Request :=
  {| method := GET;
     url := EventsUrl (GOOGLE_CALENDAR_ID env)
                      (Some {| timeMin := timeMin; timeMax := timeMax;
                               maxResults := "2500"; singleEvents := "false" |});
     authorization := Some accessToken; contentType := None; body := NoBody |}.

(** The calendar a request addresses, if it addresses one. *)
Definition calendarOf (req : Request) : option string :=
  match url req with
  | EventsUrl calendarId _ => Some calendarId
  | EventUrl calendarId _ => Some calendarId
  | _ => None
  end.

(** ** The three cases of a source event against the map *)

Definition isAbsent (googleEventsByUid : JsMap.t GoogleEvent.t) (e : OutlookEvent.t) : bool :=
  match JsMap.get googleEventsByUid (OutlookEvent.uid e) with
  | Some _ => false
  | None => true
  end.

Definition isStale (googleEventsByUid : JsMap.t GoogleEvent.t) (e : OutlookEvent.t) : bool :=
  match JsMap.get googleEventsByUid (OutlookEvent.uid e) with
  | Some existing => needsUpdate existing e
  | None => false
  end.

Definition isCurrent (googleEventsByUid : JsMap.t GoogleEvent.t) (e : OutlookEvent.t) : bool :=
  match JsMap.get googleEventsByUid (OutlookEvent.uid e) with
  | Some existing => negb (needsUpdate existing e)
  | None => false
  end.

(** The reply of the handler to an accepted trigger, from the outcome of the
    sync it awaited (lines 20-31). *)
Definition triggerReply {W} (outcome : Outcome SyncResult * Run W) : Outcome Reply * Run W :=
  match outcome with
  | (Returned result, r') =>
      (Returned {| reply_status := 200; reply_contentType := Some ApplicationJson;
                   reply_body := ResultJson result |}, r')
  | (Thrown message, r') =>
      (Returned {| reply_status := 500; reply_contentType := Some ApplicationJson;
                   reply_body := ErrorJson "Sync failed" |},
       {| world := world r'; sent := sent r';
          console := console r' ++ [(Error, SyncError message)] |})
  end.

(** ** Concrete inputs *)

Definition allDayStandup : OutlookEvent.t :=
  {| OutlookEvent.uid := "A";
     OutlookEvent.summary := "Standup";
     OutlookEvent.description := "";
     OutlookEvent.location := "";
     OutlookEvent.start := "2024-06-01T00:00:00.000Z";
     OutlookEvent.end_ := "2024-06-02T00:00:00.000Z";
     OutlookEvent.isAllDay := true;
     OutlookEvent.lastModified := Some "2024-01-01T00:00:00.000Z";
     OutlookEvent.attendees := [];
     OutlookEvent.organizer := None |}.


Definition noDecoder {A} (_ : string) : option A := None.

Definition envWithSecret : Env :=
  {| SYNC_TOKEN := Some "s3cret";
     OUTLOOK_ICS_URL := "https://outlook.example/calendar.ics";
     GOOGLE_CLIENT_ID := "client"; GOOGLE_CLIENT_SECRET := "secret";
     GOOGLE_REFRESH_TOKEN := "refresh"; GOOGLE_CALENDAR_ID := "cal" |}.

Definition envWithoutSecret : Env :=
  {| SYNC_TOKEN := None;
     OUTLOOK_ICS_URL := "https://outlook.example/calendar.ics";
     GOOGLE_CLIENT_ID := "client"; GOOGLE_CLIENT_SECRET := "secret";
     GOOGLE_REFRESH_TOKEN := "refresh"; GOOGLE_CALENDAR_ID := "cal" |}.

Definition syncWithoutToken : Incoming :=
  {| pathname := "/sync"; header_X_Sync_Token := None; searchParams_token := None |}.

Definition syncWithWrongToken : Incoming :=
  {| pathname := "/sync"; header_X_Sync_Token := Some "guess"; searchParams_token := None |}.

Definition unknownPath : Incoming :=
  {| pathname := "/calendar"; header_X_Sync_Token := None; searchParams_token := None |}.

(** The handler against an empty calendar, with decoders that reject
    everything. *)
Definition handle (request : Incoming) (env : Env) : Outcome Reply * Run Calendar.t :=
  worker_fetch Calendar.serve Calendar.now Calendar.now Calendar.now
               noDecoder noDecoder noDecoder request env (fresh_run []).

Definition unauthorized : Reply :=
  {| reply_status := 401; reply_contentType := None; reply_body := PlainText "Unauthorized" |}.

Definition notFound : Reply :=
  {| reply_status := 404; reply_contentType := None; reply_body := PlainText "Not found" |}.

(** A destination that refuses every request with status 500. *)
Definition refusing (_ : Request) (w : unit) : (Response + string) * unit :=
  (inl {| status := 500; text := "Internal Server Error" |}, w).

Definition timed (uid summary lastModified : string) : OutlookEvent.t :=
  {| OutlookEvent.uid := uid;
     OutlookEvent.summary := summary;
     OutlookEvent.description := "";
     OutlookEvent.location := "";
     OutlookEvent.start := "2024-06-03T09:00:00.000Z";
     OutlookEvent.end_ := "2024-06-03T09:30:00.000Z";
     OutlookEvent.isAllDay := false;
     OutlookEvent.lastModified := Some lastModified;
     OutlookEvent.attendees := [];
     OutlookEvent.organizer := None |}.

(** An item of the destination as a create of [e] leaves it. *)
Definition stored (id : string) (e : OutlookEvent.t) : GoogleEvent.t :=
  Calendar.insert id (googleEventBody e).

(** An item of the destination the worker did not create. *)
Definition foreign (id summary : string) : GoogleEvent.t :=
  {| GoogleEvent.id := id;
     GoogleEvent.summary := Some summary;
     GoogleEvent.description := None;
     GoogleEvent.location := None;
     GoogleEvent.outlookSyncUid := None;
     GoogleEvent.outlookLastModified := None;
     GoogleEvent.attendees := None;
     GoogleEvent.organizer := None;
     GoogleEvent.start := Some (dateTime "2024-06-03T12:00:00.000Z");
     GoogleEvent.end_ := Some (dateTime "2024-06-03T13:00:00.000Z") |}.

Definition standup : OutlookEvent.t := timed "A" "Standup" "2024-01-01T00:00:00.000Z".
Definition standupMoved : OutlookEvent.t := timed "A" "Standup (moved)" "2024-01-02T00:00:00.000Z".
Definition review : OutlookEvent.t := timed "B" "Review" "2024-01-01T00:00:00.000Z".

(** A calendar holding [standup] as synced, and a foreign item. *)
Definition calendarA : Calendar.t := [foreign "f1" "Lunch"; stored "e1" standup].

Definition alice : Attendee.t :=
  {| Attendee.email := "alice@example.org"; Attendee.displayName := "Alice";
     Attendee.responseStatus := "accepted" |}.

(** [standup] with one attendee, and the same event later, renamed and with
    no attendee left. *)
Definition standupWithAlice : OutlookEvent.t :=
  {| OutlookEvent.uid := "A";
     OutlookEvent.summary := "Standup";
     OutlookEvent.description := "";
     OutlookEvent.location := "";
     OutlookEvent.start := "2024-06-03T09:00:00.000Z";
     OutlookEvent.end_ := "2024-06-03T09:30:00.000Z";
     OutlookEvent.isAllDay := false;
     OutlookEvent.lastModified := Some "2024-01-01T00:00:00.000Z";
     OutlookEvent.attendees := [alice];
     OutlookEvent.organizer := None |}.

Definition standupAlone : OutlookEvent.t :=
  {| OutlookEvent.uid := "A";
     OutlookEvent.summary := "Standup (solo)";
     OutlookEvent.description := "";
     OutlookEvent.location := "";
     OutlookEvent.start := "2024-06-03T09:00:00.000Z";
     OutlookEvent.end_ := "2024-06-03T09:30:00.000Z";
     OutlookEvent.isAllDay := false;
     OutlookEvent.lastModified := Some "2024-01-02T00:00:00.000Z";
     OutlookEvent.attendees := [];
     OutlookEvent.organizer := None |}.

(** A source event with an empty UID, and one with no modification stamp. *)
Definition anonymous : OutlookEvent.t := timed "" "Standup" "2024-01-01T00:00:00.000Z".

Definition undated : OutlookEvent.t :=
  {| OutlookEvent.uid := "A";
     OutlookEvent.summary := "Standup";
     OutlookEvent.description := "";
     OutlookEvent.location := "";
     OutlookEvent.start := "2024-06-03T09:00:00.000Z";
     OutlookEvent.end_ := "2024-06-03T09:30:00.000Z";
     OutlookEvent.isAllDay := false;
     OutlookEvent.lastModified := None;
     OutlookEvent.attendees := [];
     OutlookEvent.organizer := None |}.

(** The counters of the second of two runs in a row over the same source
    snapshot, the second against the calendar the first left. *)
Definition secondRun (outlookEvents : list OutlookEvent.t) (g : Calendar.t) : option Stats.t :=
  match (reconcile "tok" "cal" outlookEvents
                   (world (reconcile "tok" "cal" outlookEvents g).2)).1 with
  | Returned res => Some (stats res)
  | Thrown _ => None
  end.

(** A network on which every [fetch] is rejected. *)
Definition unreachable (_ : Request) (w : unit) : (Response + string) * unit :=
  (inr "network connection lost", w).

(** An item of the destination that lost its description. *)
Definition bare : GoogleEvent.t :=
  {| GoogleEvent.id := "e1";
     GoogleEvent.summary := Some "Standup";
     GoogleEvent.description := None;
     GoogleEvent.location := Some "";
     GoogleEvent.outlookSyncUid := Some "A";
     GoogleEvent.outlookLastModified := Some "2024-01-01T00:00:00.000Z";
     GoogleEvent.attendees := None;
     GoogleEvent.organizer := None;
     GoogleEvent.start := Some (dateTime "2024-06-03T09:00:00.000Z");
     GoogleEvent.end_ := Some (dateTime "2024-06-03T09:30:00.000Z") |}.

(** A network with a token endpoint, a feed and a calendar that all answer:
    the calendar is [Calendar.serve], its listing and the two other
    endpoints answer 200 with a fixed text. *)
Definition service (req : Request) (g : Calendar.t) : (Response + string) * Calendar.t :=
  match url req with
  | OAuthTokenUrl => (Calendar.reply 200 "{access_token}", g)
  | FeedUrl _ => (Calendar.reply 200 "BEGIN:VCALENDAR", g)
  | EventsUrl _ (Some _) => (Calendar.reply 200 "{items}", g)
  | _ => Calendar.serve req g
  end.

(** The same with the feed answering 503, and with the calendar answering
    500 to everything. *)
Definition feedDown (req : Request) (g : Calendar.t) : (Response + string) * Calendar.t :=
  match url req with
  | OAuthTokenUrl => (Calendar.reply 200 "{access_token}", g)
  | _ => (Calendar.reply 503 "Service Unavailable", g)
  end.

Definition calendarDown (req : Request) (g : Calendar.t) : (Response + string) * Calendar.t :=
  match url req with
  | OAuthTokenUrl => (Calendar.reply 200 "{access_token}", g)
  | FeedUrl _ => (Calendar.reply 200 "BEGIN:VCALENDAR", g)
  | _ => (Calendar.reply 500 "Backend Error", g)
  end.

(** Decoders for these texts. *)
Definition decodeToken (s : string) : option string :=
  if String.eqb s "{access_token}" then Some "tok" else None.

Definition decodeItems (items : list GoogleEvent.t) (s : string) : option (list GoogleEvent.t) :=
  if String.eqb s "{items}" then Some items else None.

Definition decodeFeed (events : list OutlookEvent.t) (s : string) : option (list OutlookEvent.t) :=
  if String.eqb s "BEGIN:VCALENDAR" then Some events else None.

(** A whole sync of [events] against the calendar [g], over a given network. *)
Definition sync (network : Request -> Calendar.t -> (Response + string) * Calendar.t)
    (events : list OutlookEvent.t) (g : Calendar.t) : Outcome SyncResult * Run Calendar.t :=
  syncCalendars network Calendar.now Calendar.now Calendar.now
                decodeToken (decodeItems g) (decodeFeed events) envWithSecret (fresh_run g).

Definition syncWithHeader (h : string) (q : option string) : Incoming :=
  {| pathname := "/sync"; header_X_Sync_Token := Some h; searchParams_token := q |}.

(** A VEVENT with three ATTENDEE properties, the second without a value. *)
Definition invitation : ICal.VEvent :=
  {| ICal.uid := "A";
     ICal.summary := None;
     ICal.description := None;
     ICal.location := Some "Room 1";
     ICal.startDate := "2024-06-03T09:00:00.000Z";
     ICal.endDate := "2024-06-03T09:30:00.000Z";
     ICal.isDate := false;
     ICal.last_modified := None;
     ICal.dtstamp := Some "2024-01-01T00:00:00.000Z";
     ICal.attendee :=
       [{| ICal.firstValue := Some "mailto:alice@example.org"; ICal.cn := Some "Alice";
           ICal.partstat := Some "ACCEPTED" |};
        {| ICal.firstValue := None; ICal.cn := Some "Nobody"; ICal.partstat := None |};
        {| ICal.firstValue := Some "bob@example.org"; ICal.cn := None;
           ICal.partstat := Some "DELEGATED" |}];
     ICal.organizer := None |}.

(** * Properties *)

Section DeliveryFacts.
Context {W : Type}.
Variable network : Request -> W -> (Response + string) * W.

Lemma deliver_app l1 l2 w :
  deliver network (l1 ++ l2) w =
    let '(h1, rej1, w1) := deliver network l1 w in
    match rej1 with
    | Some e => (h1, Some e, w1)
    | None => let '(h2, rej2, w2) := deliver network l2 w1 in (h1 ++ h2, rej2, w2)
    end.
Proof.
  revert w. induction l1 as [|req l1 IH]; intros w; simpl.
  - destruct (deliver network l2 w) as [[h2 rej2] w2]. reflexivity.
  - destruct (network req w) as [[resp|e] w']; [|reflexivity].
    rewrite IH. destruct (deliver network l1 w') as [[h1 rej1] w1].
    destruct rej1; [reflexivity|].
    destruct (deliver network l2 w1) as [[h2 rej2] w2]. reflexivity.
Qed.

Lemma deliver_prefix reqs w :
  exists rest, reqs = (deliver network reqs w).1.1 ++ rest.
Proof.
  revert w. induction reqs as [|req reqs IH]; intros w; simpl.
  - exists []. reflexivity.
  - destruct (network req w) as [[resp|e] w'].
    + destruct (IH w') as [rest Hrest].
      destruct (deliver network reqs w') as [[h rej] w'']. simpl in *.
      exists rest. congruence.
    + exists reqs. reflexivity.
Qed.

Lemma deliver_answers reqs w :
  answers network -> deliver network reqs w = (reqs, None, after network reqs w).
Proof.
  intros Hans. revert w. induction reqs as [|req reqs IH]; intros w; simpl.
  - reflexivity.
  - unfold after. simpl. destruct (Hans req w) as (resp & w' & Hnet).
    rewrite Hnet. simpl. rewrite IH. reflexivity.
Qed.

Lemma deliver_complete reqs w :
  (deliver network reqs w).1.2 = None ->
  deliver network reqs w = (reqs, None, after network reqs w).
Proof.
  revert w. induction reqs as [|req reqs IH]; intros w; simpl.
  - reflexivity.
  - unfold after. simpl. destruct (network req w) as [[resp|e] w']; simpl.
    + specialize (IH w'). destruct (deliver network reqs w') as [[h rej] w'']. simpl in *.
      intros ->. specialize (IH eq_refl). injection IH as -> ->. reflexivity.
    + discriminate.
Qed.
End DeliveryFacts.

Lemma omap_cons_app {A B} (f : A -> option B) (x : A) (xs : list A) :
  omap f (x :: xs) = option_list (f x) ++ omap f xs.
Proof. simpl. destruct (f x); reflexivity. Qed.

(** ** What a run of [syncEvents] does, for any network *)

Section RunFacts.
Context {W : Type}.
Variable network : Request -> W -> (Response + string) * W.
Variable now : W -> string.
Variable accessToken calendarId : string.

Lemma performs_ret {A} (a : A) : performs network (ret a) [] a.
Proof.
  intros [w s c]. exists c. unfold ret. simpl. rewrite app_nil_r. reflexivity.
Qed.

Lemma performs_bind {A B} (m : Eff W A) (k : A -> Eff W B) l1 l2 a b :
  performs network m l1 a -> performs network (k a) l2 b -> performs network (bind m k) (l1 ++ l2) b.
Proof.
  intros Hm Hk r. unfold bind. destruct (Hm r) as [c1 ->].
  rewrite deliver_app.
  destruct (deliver network l1 (world r)) as [[h1 rej1] w1].
  destruct rej1 as [e|].
  - exists c1. reflexivity.
  - destruct (Hk {| world := w1; sent := sent r ++ h1; console := c1 |}) as [c2 ->].
    simpl. destruct (deliver network l2 w1) as [[h2 rej2] w2].
    exists c2. rewrite app_assoc. reflexivity.
Qed.

Lemma performs_log {A} (m : Message) (k : Eff W A) reqs a :
  performs network k reqs a -> performs network (bind (console_log m) (fun _ => k)) reqs a.
Proof.
  intros Hk r. unfold bind, console_log. simpl.
  destruct (Hk {| world := world r; sent := sent r; console := console r ++ [(Info, m)] |})
    as [c ->]. simpl. exists c. reflexivity.
Qed.

Lemma performs_fetch {A} req (k : Response -> Eff W A) a :
  (forall response, performs network (k response) [] a) ->
  performs network (bind (fetch network req) k) [req] a.
Proof.
  intros Hk r. unfold bind, fetch. simpl.
  destruct (network req (world r)) as [[response|e] w'].
  - destruct (Hk response {| world := w'; sent := sent r ++ [req]; console := console r |})
      as [c ->]. simpl. exists c. rewrite app_nil_r. reflexivity.
  - exists (console r). reflexivity.
Qed.

Lemma performs_error_or_ret (b : bool) (m : Message) :
  performs network (if b then console_error m else ret tt) [] tt.
Proof.
  intros [w s c]. destruct b; unfold console_error, ret; simpl;
    eexists; rewrite app_nil_r; reflexivity.
Qed.

Lemma createGoogleEvent_performs eventBody :
  performs network (createGoogleEvent network accessToken calendarId eventBody)
           [createRequest accessToken calendarId eventBody] tt.
Proof.
  unfold createGoogleEvent. apply performs_fetch. intros response.
  apply performs_error_or_ret.
Qed.

Lemma updateGoogleEvent_performs eventId eventBody :
  performs network (updateGoogleEvent network accessToken calendarId eventId eventBody)
           [updateRequest accessToken calendarId eventId eventBody] tt.
Proof.
  unfold updateGoogleEvent. apply performs_fetch. intros response.
  apply performs_error_or_ret.
Qed.

Lemma deleteGoogleEvent_performs eventId :
  performs network (deleteGoogleEvent network accessToken calendarId eventId)
           [deleteRequest accessToken calendarId eventId] tt.
Proof.
  unfold deleteGoogleEvent. apply performs_fetch. intros response.
  apply performs_error_or_ret.
Qed.

Lemma performs_for_of {X S} (body : X -> S -> Eff W S) (req : X -> option Request)
    (next : S -> X -> S) :
  (forall x s, performs network (body x s) (option_list (req x)) (next s x)) ->
  forall xs s, performs network (for_of xs body s) (omap req xs) (fold_left next xs s).
Proof.
  intros Hbody xs. induction xs as [|x xs IH]; intros s.
  - apply performs_ret.
  - rewrite omap_cons_app.
    change (for_of (x :: xs) body s) with (bind (body x s) (for_of xs body)).
    change (fold_left next (x :: xs) s) with (fold_left next xs (next s x)).
    eapply performs_bind; [apply Hbody | apply IH].
Qed.

Variable googleEventsByUid : JsMap.t GoogleEvent.t.

Lemma syncOne_performs outlookEvent stats seenUids :
  performs network (syncOne network accessToken calendarId googleEventsByUid outlookEvent (stats, seenUids))
           (option_list (requestFor accessToken calendarId googleEventsByUid outlookEvent))
           (tally googleEventsByUid stats outlookEvent,
            {[OutlookEvent.uid outlookEvent]} ∪ seenUids).
Proof.
  unfold syncOne, requestFor, tally.
  destruct (JsMap.get googleEventsByUid (OutlookEvent.uid outlookEvent)) as [existing|].
  - fold (needsUpdate existing outlookEvent).
    destruct (needsUpdate existing outlookEvent); simpl.
    + change [updateRequest accessToken calendarId (GoogleEvent.id existing)
                 (googleEventBody outlookEvent)]
        with ([updateRequest accessToken calendarId (GoogleEvent.id existing)
                 (googleEventBody outlookEvent)] ++ []).
      eapply performs_bind; [apply updateGoogleEvent_performs|].
      apply performs_log, performs_ret.
    + apply performs_ret.
  - simpl.
    change [createRequest accessToken calendarId (googleEventBody outlookEvent)]
      with ([createRequest accessToken calendarId (googleEventBody outlookEvent)] ++ []).
    eapply performs_bind; [apply createGoogleEvent_performs|].
    apply performs_log, performs_ret.
Qed.

Lemma deleteUnseen_performs seenUids entry stats :
  performs network (deleteUnseen network accessToken calendarId seenUids entry stats)
           (option_list (deletionFor accessToken calendarId seenUids entry))
           (tallyDeleted seenUids stats entry).
Proof.
  unfold deleteUnseen, deletionFor, tallyDeleted, unseen. destruct entry as [uid googleEvent].
  simpl. destruct (negb (bool_decide (uid ∈ seenUids))); simpl.
  - change [deleteRequest accessToken calendarId (GoogleEvent.id googleEvent)]
      with ([deleteRequest accessToken calendarId (GoogleEvent.id googleEvent)] ++ []).
    eapply performs_bind; [apply deleteGoogleEvent_performs|].
    apply performs_log, performs_ret.
  - apply performs_ret.
Qed.

Lemma fold_syncOne outlookEvents stats (seenUids : gset string) :
  fold_left (fun (s : Stats.t * gset string) e =>
               (tally googleEventsByUid s.1 e, {[OutlookEvent.uid e]} ∪ s.2))
            outlookEvents (stats, seenUids)
  = (fold_left (tally googleEventsByUid) outlookEvents stats,
     list_to_set (uids outlookEvents) ∪ seenUids).
Proof.
  revert stats seenUids. induction outlookEvents as [|e es IH]; intros stats seenUids; simpl.
  - f_equal. apply leibniz_equiv. intros x. set_unfold. tauto.
  - rewrite IH. f_equal. apply leibniz_equiv. intros x. set_unfold. tauto.
Qed.
End RunFacts.

Section SyncEventsFacts.
Context {W : Type}.
Variable network : Request -> W -> (Response + string) * W.
Variable now : W -> string.
Variable accessToken calendarId : string.

(** The run of [syncEvents] against any network: it hands the planned
    requests to [fetch] in order; it throws at the first rejected one, and
    otherwise returns the planned counters. *)
Lemma syncEvents_run outlookEvents googleEvents r :
  exists c,
    syncEvents network now accessToken calendarId outlookEvents googleEvents r =
      let '(handed, rejection, w') :=
        deliver network (planned accessToken calendarId (indexByUid googleEvents) outlookEvents)
                (world r) in
      (match rejection with
       | None => Returned {| stats := plannedStats (indexByUid googleEvents) outlookEvents;
                             timestamp := now w' |}
       | Some e => Thrown e
       end,
       {| world := w'; sent := sent r ++ handed; console := c |}).
Proof.
  set (idx := indexByUid googleEvents).
  assert (Hloops : performs network
            (bind (for_of outlookEvents (syncOne network accessToken calendarId idx)
                          (Stats.zero, ∅))
                  (fun s => for_of idx (deleteUnseen network accessToken calendarId s.2) s.1))
            (planned accessToken calendarId idx outlookEvents)
            (plannedStats idx outlookEvents)).
  { unfold planned, plannedStats. eapply performs_bind.
    - apply (performs_for_of network
               (syncOne network accessToken calendarId idx)
               (requestFor accessToken calendarId idx)
               (fun s e => (tally idx s.1 e, {[OutlookEvent.uid e]} ∪ s.2))).
      intros e [stats seenUids]. apply syncOne_performs.
    - rewrite fold_syncOne. simpl. rewrite (right_id_L ∅ (∪)).
      apply (performs_for_of network
               (deleteUnseen network accessToken calendarId (list_to_set (uids outlookEvents)))
               (deletionFor accessToken calendarId (list_to_set (uids outlookEvents)))
               (tallyDeleted (list_to_set (uids outlookEvents)))).
      intros entry stats. apply deleteUnseen_performs. }
  destruct (Hloops r) as [c Hrun]. exists c.
  unfold syncEvents. fold idx. unfold bind in *.
  destruct (for_of outlookEvents (syncOne network accessToken calendarId idx) (Stats.zero, ∅) r)
    as [[[stats seenUids]|e] r1]; simpl in *.
  - rewrite Hrun.
    destruct (deliver network (planned accessToken calendarId idx outlookEvents) (world r))
      as [[handed rejection] w']. destruct rejection; reflexivity.
  - destruct (deliver network (planned accessToken calendarId idx outlookEvents) (world r))
      as [[handed rejection] w']. destruct rejection; [|discriminate].
    injection Hrun as -> ->. reflexivity.
Qed.
End SyncEventsFacts.

(** ** The text before the first separator *)

Lemma occurs_split_first sep s : occurs sep (split_first sep s) = false.
Proof.
  induction s as [|c s IH]; simpl; [reflexivity|].
  destruct (Ascii.eqb c sep) eqn:E; simpl; [reflexivity|].
  rewrite E. exact IH.
Qed.

Lemma split_first_app sep d rest :
  occurs sep d = false -> split_first sep (d ++ String sep rest)%string = d.
Proof.
  induction d as [|c d IH]; simpl.
  - intros _. rewrite Ascii.eqb_refl. reflexivity.
  - intros H. apply orb_false_iff in H as [Hc Hd]. rewrite Hc, IH by exact Hd. reflexivity.
Qed.

Lemma split_first_absent sep s : occurs sep s = false -> split_first sep s = s.
Proof.
  induction s as [|c s IH]; simpl; [reflexivity|].
  intros H. apply orb_false_iff in H as [Hc Hs]. rewrite Hc, IH by exact Hs. reflexivity.
Qed.

(** C8 (all-day encoding). An all-day source event gets date-only [start] and
    [end] fields holding the text of its start and end before the first 'T'
    (so without a time: no 'T' is left in them, and an instant written
    <date>T<time> yields <date>); start "2024-06-01T00:00:00.000Z" yields the
    date "2024-06-01". An event that is not all-day gets [dateTime] fields
    holding the instants unchanged. *)
Theorem all_day_encoding (e : OutlookEvent.t) :
  (OutlookEvent.isAllDay e = true ->
     EventBody.start (googleEventBody e) = date (split_first "T" (OutlookEvent.start e))
     /\ EventBody.end_ (googleEventBody e) = date (split_first "T" (OutlookEvent.end_ e))
     /\ occurs "T" (split_first "T" (OutlookEvent.start e)) = false
     /\ occurs "T" (split_first "T" (OutlookEvent.end_ e)) = false
     /\ (forall d time, OutlookEvent.start e = (d ++ String "T" time)%string ->
           occurs "T" d = false -> EventBody.start (googleEventBody e) = date d)
     /\ (forall d time, OutlookEvent.end_ e = (d ++ String "T" time)%string ->
           occurs "T" d = false -> EventBody.end_ (googleEventBody e) = date d))
  /\ (OutlookEvent.isAllDay e = true ->
      OutlookEvent.start e = "2024-06-01T00:00:00.000Z" ->
      EventBody.start (googleEventBody e) = date "2024-06-01")
  /\ (OutlookEvent.isAllDay e = false ->
      EventBody.start (googleEventBody e) = dateTime (OutlookEvent.start e)
      /\ EventBody.end_ (googleEventBody e) = dateTime (OutlookEvent.end_ e)).
Proof.
  unfold googleEventBody; simpl. split; [|split].
  - intros ->. repeat split.
    + apply occurs_split_first.
    + apply occurs_split_first.
    + intros d time -> Hd. rewrite split_first_app by exact Hd. reflexivity.
    + intros d time -> Hd. rewrite split_first_app by exact Hd. reflexivity.
  - intros -> ->. reflexivity.
  - intros ->. split; reflexivity.
Qed.

Lemma all_day_encoding_witness :
  OutlookEvent.isAllDay allDayStandup = true
  /\ EventBody.start (googleEventBody allDayStandup) = date "2024-06-01".
Proof.
  split; [reflexivity|].
  apply (proj1 (proj2 (all_day_encoding allDayStandup))); reflexivity.
Defined.

(** ** The HTTP entry point *)

Section HandlerFacts.
Context {W : Type}.
Variable network : Request -> W -> (Response + string) * W.
Variable now windowMin windowMax : W -> string.
Variable json_access_token : string -> option string.
Variable json_items : string -> option (list GoogleEvent.t).
Variable parseICS : string -> option (list OutlookEvent.t).

Lemma worker_fetch_rejects request env r :
  pathname request = "/sync" ->
  truthy_opt (SYNC_TOKEN env) = false
  \/ or_else (header_X_Sync_Token request) (searchParams_token request) <> SYNC_TOKEN env ->
  worker_fetch network now windowMin windowMax json_access_token json_items parseICS
    request env r = (Returned unauthorized, r).
Proof.
  intros Hpath Hbad. unfold worker_fetch.
  rewrite bool_decide_eq_true_2 by exact Hpath.
  destruct Hbad as [Hunset | Hwrong].
  - rewrite Hunset. reflexivity.
  - rewrite (bool_decide_eq_false_2 _ Hwrong), orb_true_r. reflexivity.
Qed.

Lemma worker_fetch_unknown request env r :
  pathname request <> "/sync" ->
  worker_fetch network now windowMin windowMax json_access_token json_items parseICS
    request env r = (Returned notFound, r).
Proof.
  intros Hpath. unfold worker_fetch.
  rewrite bool_decide_eq_false_2 by exact Hpath. reflexivity.
Qed.

(** C9 (fail-closed manual trigger). When [SYNC_TOKEN] is unset or empty, a
    request to /sync is answered 401 whatever token it carries (none, an
    empty one, any other), and the run state is returned as it was: nothing
    was fetched, nothing logged, so no sync was started. *)
Theorem fail_closed_manual_trigger request env r :
  pathname request = "/sync" ->
  SYNC_TOKEN env = None \/ SYNC_TOKEN env = Some "" ->
  worker_fetch network now windowMin windowMax json_access_token json_items parseICS
    request env r
  = (Returned {| reply_status := 401; reply_contentType := None;
                 reply_body := PlainText "Unauthorized" |}, r).
Proof.
  intros Hpath Hunset. apply worker_fetch_rejects; [exact Hpath|].
  left. destruct Hunset as [-> | ->]; reflexivity.
Qed.

(** C4, as the code has it. A request to /sync whose token is missing or
    differs from the configured secret is answered 401 "Unauthorized"
    without starting a sync; a request to any other path is answered 404
    "Not found"; the two replies differ in status and in body. *)
Theorem auth_failure_is_401 request other env r :
  pathname request = "/sync" ->
  or_else (header_X_Sync_Token request) (searchParams_token request) = None
  \/ or_else (header_X_Sync_Token request) (searchParams_token request) <> SYNC_TOKEN env ->
  pathname other <> "/sync" ->
  worker_fetch network now windowMin windowMax json_access_token json_items parseICS
    request env r
  = (Returned {| reply_status := 401; reply_contentType := None;
                 reply_body := PlainText "Unauthorized" |}, r)
  /\ worker_fetch network now windowMin windowMax json_access_token json_items parseICS
       other env r
     = (Returned {| reply_status := 404; reply_contentType := None;
                    reply_body := PlainText "Not found" |}, r)
  /\ (worker_fetch network now windowMin windowMax json_access_token json_items parseICS
         request env r).1
       <> (worker_fetch network now windowMin windowMax json_access_token json_items parseICS
           other env r).1.
Proof.
  intros Hpath Hbad Hother.
  assert (H401 : worker_fetch network now windowMin windowMax json_access_token json_items
                               parseICS request env r = (Returned unauthorized, r)).
  { apply worker_fetch_rejects; [exact Hpath|].
    destruct Hbad as [Hmissing | Hwrong]; [|right; exact Hwrong].
    destruct (SYNC_TOKEN env) as [secret|] eqn:Hsecret.
    - right. rewrite Hmissing. discriminate.
    - left. reflexivity. }
  assert (H404 : worker_fetch network now windowMin windowMax json_access_token json_items
                               parseICS other env r = (Returned notFound, r)).
  { apply worker_fetch_unknown. exact Hother. }
  rewrite H401, H404. repeat split. simpl. discriminate.
Qed.
End HandlerFacts.

Lemma fail_closed_manual_trigger_witness :
  handle syncWithoutToken envWithoutSecret = (Returned unauthorized, fresh_run []).
Proof.
  apply (fail_closed_manual_trigger Calendar.serve Calendar.now Calendar.now Calendar.now
           noDecoder noDecoder noDecoder syncWithoutToken envWithoutSecret (fresh_run [])).
  - reflexivity.
  - left. reflexivity.
Defined.

Lemma auth_failure_is_401_witness :
  handle syncWithWrongToken envWithSecret = (Returned unauthorized, fresh_run [])
  /\ handle unknownPath envWithSecret = (Returned notFound, fresh_run [])
  /\ (handle syncWithWrongToken envWithSecret).1 <> (handle unknownPath envWithSecret).1.
Proof.
  apply (auth_failure_is_401 Calendar.serve Calendar.now Calendar.now Calendar.now
           noDecoder noDecoder noDecoder syncWithWrongToken unknownPath envWithSecret
           (fresh_run [])).
  - reflexivity.
  - right. discriminate.
  - discriminate.
Defined.

(** C4 as stated fails: with a secret configured, a request to /sync without
    a token is answered 401 "Unauthorized", a request to an unknown path 404
    "Not found". *)
Lemma auth_failure_distinguishable :
  (handle syncWithoutToken envWithSecret).1 = Returned unauthorized
  /\ (handle unknownPath envWithSecret).1 = Returned notFound
  /\ (handle syncWithoutToken envWithSecret).1 <> (handle unknownPath envWithSecret).1.
Proof.
  repeat split. discriminate.
Qed.

(** ** The map of destination items by Outlook UID *)

Section JsMapFacts.
Context {V : Type}.
Implicit Types (m : JsMap.t V) (k : string) (v : V).

Lemma get_set_eq m k v : JsMap.get (JsMap.set m k v) k = Some v.
Proof.
  induction m as [|[k' v'] m IH]; simpl.
  - rewrite decide_True by reflexivity. reflexivity.
  - destruct (decide (k' = k)) as [->|Hne]; simpl.
    + rewrite decide_True by reflexivity. reflexivity.
    + rewrite decide_False by exact Hne. exact IH.
Qed.

Lemma get_set_ne m k k' v : k <> k' -> JsMap.get (JsMap.set m k v) k' = JsMap.get m k'.
Proof.
  intros Hkk'. induction m as [|[k0 v0] m IH]; simpl.
  - rewrite decide_False by exact Hkk'. reflexivity.
  - destruct (decide (k0 = k)) as [->|Hne]; simpl.
    + rewrite !decide_False by exact Hkk'. reflexivity.
    + destruct (decide (k0 = k')); [reflexivity | exact IH].
Qed.

Lemma get_Some_elem m k v : JsMap.get m k = Some v -> (k, v) ∈ m.
Proof.
  induction m as [|[k' v'] m IH]; simpl; [discriminate|].
  destruct (decide (k' = k)) as [->|Hne].
  - intros [= ->]. apply list_elem_of_here.
  - intros H. apply list_elem_of_further, IH, H.
Qed.

Lemma get_None_keys m k : JsMap.get m k = None -> k ∉ m.*1.
Proof.
  induction m as [|[k' v'] m IH]; simpl.
  - intros _. apply not_elem_of_nil.
  - destruct (decide (k' = k)) as [->|Hne]; [discriminate|].
    intros H. apply not_elem_of_cons. split; [congruence | apply IH, H].
Qed.

Lemma elem_get m k v : NoDup m.*1 -> (k, v) ∈ m -> JsMap.get m k = Some v.
Proof.
  induction m as [|[k' v'] m IH]; simpl.
  - intros _ H. apply elem_of_nil in H. contradiction.
  - intros Hnd H. apply NoDup_cons in Hnd as [Hk' Hnd].
    apply elem_of_cons in H as [[= -> ->]|H].
    + rewrite decide_True by reflexivity. reflexivity.
    + destruct (decide (k' = k)) as [->|Hne]; [|apply IH; assumption].
      exfalso. apply Hk'. apply list_elem_of_fmap. exists (k, v). split; [reflexivity|exact H].
Qed.

Lemma keys_set_in m k v : k ∈ m.*1 -> (JsMap.set m k v).*1 = m.*1.
Proof.
  induction m as [|[k' v'] m IH]; simpl; intros Hin.
  - apply elem_of_nil in Hin. contradiction.
  - destruct (decide (k' = k)) as [->|Hne]; simpl; [reflexivity|].
    apply elem_of_cons in Hin as [->|Hin]; [congruence|].
    f_equal. apply IH, Hin.
Qed.

Lemma keys_set_notin m k v : k ∉ m.*1 -> (JsMap.set m k v).*1 = m.*1 ++ [k].
Proof.
  induction m as [|[k' v'] m IH]; simpl; intros Hnin; [reflexivity|].
  apply not_elem_of_cons in Hnin as [Hne Hnin].
  rewrite decide_False by congruence. simpl. f_equal. apply IH, Hnin.
Qed.

Lemma NoDup_keys_set m k v : NoDup m.*1 -> NoDup (JsMap.set m k v).*1.
Proof.
  intros Hnd. destruct (decide (k ∈ m.*1)) as [Hin|Hnin].
  - rewrite keys_set_in by exact Hin. exact Hnd.
  - rewrite keys_set_notin by exact Hnin.
    apply NoDup_app. split; [exact Hnd|]. split.
    + intros x Hx Hx'. rewrite list_elem_of_singleton in Hx'. subst x. contradiction.
    + apply NoDup_singleton.
Qed.
End JsMapFacts.

Lemma owned_ownedUid x : owned x = true <-> exists uid, ownedUid x = Some uid.
Proof.
  unfold owned, ownedUid, truthy_opt. destruct (GoogleEvent.outlookSyncUid x) as [uid|].
  - destruct (truthy uid).
    + split; [eauto | reflexivity].
    + split; [discriminate | intros [? ?]; discriminate].
  - split; [discriminate | intros [? ?]; discriminate].
Qed.

Lemma ownedUid_stored x uid :
  ownedUid x = Some uid <-> GoogleEvent.outlookSyncUid x = Some uid /\ uid <> "".
Proof.
  unfold ownedUid, truthy. destruct (GoogleEvent.outlookSyncUid x) as [u|].
  - destruct (String.eqb_spec u "") as [->|Hne]; simpl.
    + split; [discriminate | intros [[= <-] H]; congruence].
    + split; [intros [= ->]; auto | intros [[= ->] _]; reflexivity].
  - split; [discriminate | intros [? _]; discriminate].
Qed.

Lemma indexByUid_snoc g x :
  indexByUid (g ++ [x]) =
    match ownedUid x with
    | Some uid => JsMap.set (indexByUid g) uid x
    | None => indexByUid g
    end.
Proof.
  unfold indexByUid, ownedUid. rewrite fold_left_app. simpl.
  destruct (GoogleEvent.outlookSyncUid x) as [uid|]; [|reflexivity].
  destruct (truthy uid); reflexivity.
Qed.

Lemma indexByUid_keys_NoDup g : NoDup (indexByUid g).*1.
Proof.
  induction g as [|x g IH] using rev_ind.
  - apply NoDup_nil_2.
  - rewrite indexByUid_snoc. destruct (ownedUid x); [apply NoDup_keys_set|]; exact IH.
Qed.

Lemma get_indexByUid_Some g uid x :
  JsMap.get (indexByUid g) uid = Some x -> x ∈ g /\ ownedUid x = Some uid.
Proof.
  induction g as [|y g IH] using rev_ind; [discriminate|].
  rewrite indexByUid_snoc. destruct (ownedUid y) as [u|] eqn:Hy.
  - destruct (decide (u = uid)) as [->|Hne].
    + rewrite get_set_eq. intros [= ->]. split; [|exact Hy].
      apply elem_of_app. right. apply list_elem_of_here.
    + rewrite get_set_ne by exact Hne. intros H. apply IH in H as [Hin Hx].
      split; [|exact Hx]. apply elem_of_app. left. exact Hin.
  - intros H. apply IH in H as [Hin Hx].
    split; [|exact Hx]. apply elem_of_app. left. exact Hin.
Qed.

Lemma get_indexByUid_None g uid :
  JsMap.get (indexByUid g) uid = None -> forall x, x ∈ g -> ownedUid x <> Some uid.
Proof.
  induction g as [|y g IH] using rev_ind.
  - intros _ x Hx. apply elem_of_nil in Hx. contradiction.
  - rewrite indexByUid_snoc. intros Hget x Hx.
    apply elem_of_app in Hx as [Hx|Hx].
    + apply IH; [|exact Hx]. destruct (ownedUid y) as [u|]; [|exact Hget].
      destruct (decide (u = uid)) as [->|Hne].
      * rewrite get_set_eq in Hget. discriminate.
      * rewrite get_set_ne in Hget by exact Hne. exact Hget.
    + rewrite list_elem_of_singleton in Hx. subst x. intros Hy. rewrite Hy in Hget.
      rewrite get_set_eq in Hget. discriminate.
Qed.

Lemma indexByUid_entry g uid x :
  (uid, x) ∈ indexByUid g <-> JsMap.get (indexByUid g) uid = Some x.
Proof.
  split; [apply elem_get, indexByUid_keys_NoDup | apply get_Some_elem].
Qed.

Lemma omap_NoDup_inj {A B} (f : A -> option B) (l : list A) x y b :
  NoDup (omap f l) -> x ∈ l -> y ∈ l -> f x = Some b -> f y = Some b -> x = y.
Proof.
  induction l as [|a l IH]; intros Hnd Hx Hy Hfx Hfy.
  - apply elem_of_nil in Hx. contradiction.
  - rewrite omap_cons_app in Hnd.
    apply elem_of_cons in Hx as [->|Hx]; apply elem_of_cons in Hy as [->|Hy].
    + reflexivity.
    + rewrite Hfx in Hnd. simpl in Hnd. apply NoDup_cons in Hnd as [Hb _].
      exfalso. apply Hb. apply list_elem_of_omap. exists y. split; assumption.
    + rewrite Hfy in Hnd. simpl in Hnd. apply NoDup_cons in Hnd as [Hb _].
      exfalso. apply Hb. apply list_elem_of_omap. exists x. split; assumption.
    + apply IH; try assumption. destruct (f a); simpl in Hnd; [|exact Hnd].
      apply NoDup_cons in Hnd as [_ Hnd]. exact Hnd.
Qed.

Lemma get_indexByUid_of g uid x :
  NoDup (omap ownedUid g) -> x ∈ g -> ownedUid x = Some uid ->
  JsMap.get (indexByUid g) uid = Some x.
Proof.
  intros Hnd Hx Hux. destruct (JsMap.get (indexByUid g) uid) as [y|] eqn:Hget.
  - apply get_indexByUid_Some in Hget as [Hy Huy].
    f_equal. eapply omap_NoDup_inj; eassumption.
  - exfalso. eapply get_indexByUid_None; eassumption.
Qed.

(** ** Counters and planned requests *)

Section PlanFacts.
Variable accessToken calendarId : string.
Variable googleEventsByUid : JsMap.t GoogleEvent.t.

Lemma countMethod_app m l1 l2 :
  countMethod m (l1 ++ l2) = countMethod m l1 + countMethod m l2.
Proof. unfold countMethod. rewrite filter_app, length_app. reflexivity. Qed.

Lemma countMethod_cons m req l :
  countMethod m (req :: l) = (if decide (method req = m) then 1 else 0) + countMethod m l.
Proof.
  unfold countMethod. rewrite filter_cons. destruct (decide (method req = m)); reflexivity.
Qed.

Lemma tally_counts outlookEvents stats :
  let stats' := fold_left (tally googleEventsByUid) outlookEvents stats in
  let reqs := omap (requestFor accessToken calendarId googleEventsByUid) outlookEvents in
  Stats.created stats' = Stats.created stats + countMethod POST reqs
  /\ Stats.updated stats' = Stats.updated stats + countMethod PATCH reqs
  /\ Stats.deleted stats' = Stats.deleted stats
  /\ countMethod DELETE reqs = 0
  /\ Stats.created stats' + Stats.updated stats' + Stats.unchanged stats'
     = Stats.created stats + Stats.updated stats + Stats.unchanged stats + length outlookEvents.
Proof.
  revert stats. induction outlookEvents as [|e es IH]; intros stats.
  - simpl. unfold countMethod. simpl. lia.
  - rewrite omap_cons_app. cbn zeta. rewrite !countMethod_app.
    change (fold_left (tally googleEventsByUid) (e :: es) stats)
      with (fold_left (tally googleEventsByUid) es (tally googleEventsByUid stats e)).
    specialize (IH (tally googleEventsByUid stats e)). cbn zeta in IH.
    destruct IH as (Hc & Hu & Hd & Hdel & Hsum).
    set (stats' := fold_left (tally googleEventsByUid) es (tally googleEventsByUid stats e)) in *.
    set (rest := omap (requestFor accessToken calendarId googleEventsByUid) es) in *.
    rewrite Hdel. clearbody stats' rest. cbn [length].
    unfold tally, requestFor in *.
    destruct (JsMap.get googleEventsByUid (OutlookEvent.uid e)) as [existing|].
    + destruct (needsUpdate existing e); unfold countMethod in *; simpl in *; lia.
    + unfold countMethod in *; simpl in *; lia.
Qed.

Lemma unseen_iff outlookEvents entry :
  unseen (list_to_set (uids outlookEvents)) entry = true <-> entry.1 ∉ uids outlookEvents.
Proof.
  unfold unseen. rewrite negb_true_iff, bool_decide_eq_false, elem_of_list_to_set.
  reflexivity.
Qed.

Lemma deletions_planned outlookEvents (entries : list (string * GoogleEvent.t)) :
  omap (deletionFor accessToken calendarId (list_to_set (uids outlookEvents))) entries
  = map (fun entry => deleteRequest accessToken calendarId (GoogleEvent.id entry.2))
        (disappeared outlookEvents entries).
Proof.
  unfold disappeared. induction entries as [|entry entries IH]; [reflexivity|].
  rewrite omap_cons_app, IH. rewrite filter_cons. unfold deletionFor.
  destruct (unseen (list_to_set (uids outlookEvents)) entry) eqn:E.
  - apply unseen_iff in E. rewrite decide_True by exact E. reflexivity.
  - rewrite decide_False; [reflexivity|].
    intros H. apply unseen_iff in H. congruence.
Qed.

Lemma tallyDeleted_counts outlookEvents (entries : list (string * GoogleEvent.t)) stats :
  let stats' := fold_left (tallyDeleted (list_to_set (uids outlookEvents))) entries stats in
  Stats.created stats' = Stats.created stats
  /\ Stats.updated stats' = Stats.updated stats
  /\ Stats.unchanged stats' = Stats.unchanged stats
  /\ Stats.deleted stats' = Stats.deleted stats + length (disappeared outlookEvents entries).
Proof.
  unfold disappeared. revert stats. induction entries as [|entry entries IH]; intros stats.
  - simpl. lia.
  - cbn zeta.
    change (fold_left (tallyDeleted (list_to_set (uids outlookEvents))) (entry :: entries) stats)
      with (fold_left (tallyDeleted (list_to_set (uids outlookEvents))) entries
              (tallyDeleted (list_to_set (uids outlookEvents)) stats entry)).
    specialize (IH (tallyDeleted (list_to_set (uids outlookEvents)) stats entry)).
    cbn zeta in IH. destruct IH as (Hc & Hu & Hn & Hd). rewrite Hc, Hu, Hn, Hd.
    rewrite filter_cons. unfold tallyDeleted.
    destruct (unseen (list_to_set (uids outlookEvents)) entry) eqn:E.
    + apply unseen_iff in E. rewrite decide_True by exact E. cbn [length]. simpl. lia.
    + rewrite decide_False; [simpl; lia|].
      intros H. apply unseen_iff in H. congruence.
Qed.

Lemma countMethod_deletes m (entries : list (string * GoogleEvent.t)) :
  countMethod m (map (fun entry => deleteRequest accessToken calendarId (GoogleEvent.id entry.2))
                     entries)
  = if decide (DELETE = m) then length entries else 0.
Proof.
  induction entries as [|entry entries IH].
  - destruct (decide (DELETE = m)); reflexivity.
  - cbn [map]. rewrite countMethod_cons, IH. simpl.
    destruct (decide (DELETE = m)); reflexivity.
Qed.

(** The counters of a completed run count the requests of each kind in the
    plan, and every source event exactly once. *)
Lemma plannedStats_counts outlookEvents :
  let s := plannedStats googleEventsByUid outlookEvents in
  let reqs := planned accessToken calendarId googleEventsByUid outlookEvents in
  Stats.created s = countMethod POST reqs
  /\ Stats.updated s = countMethod PATCH reqs
  /\ Stats.deleted s = countMethod DELETE reqs
  /\ Stats.deleted s = length (disappeared outlookEvents googleEventsByUid)
  /\ Stats.created s + Stats.updated s + Stats.unchanged s = length outlookEvents.
Proof.
  unfold plannedStats, planned. cbn zeta.
  destruct (tallyDeleted_counts outlookEvents googleEventsByUid
              (fold_left (tally googleEventsByUid) outlookEvents Stats.zero))
    as (Hc & Hu & Hn & Hd).
  destruct (tally_counts outlookEvents Stats.zero) as (Hc' & Hu' & Hd' & Hdel & Hsum).
  rewrite Hc, Hu, Hn, Hd, Hc', Hu', Hd'. rewrite !countMethod_app, Hdel.
  rewrite deletions_planned, !countMethod_deletes. simpl.
  rewrite Hc', Hu' in Hsum. simpl in Hsum. repeat split; lia.
Qed.
End PlanFacts.

(** ** The change detector *)

Lemma differs_iff x s : differs x s = true <-> x <> Some s.
Proof. unfold differs. rewrite negb_true_iff, bool_decide_eq_false. reflexivity. Qed.

Lemma needsUpdate_iff existing e :
  needsUpdate existing e = true <->
    GoogleEvent.outlookLastModified existing <> OutlookEvent.lastModified e
    \/ (GoogleEvent.summary existing <> Some (EventBody.summary (googleEventBody e))
        \/ GoogleEvent.description existing <> Some (EventBody.description (googleEventBody e))
        \/ GoogleEvent.location existing <> Some (EventBody.location (googleEventBody e))).
Proof.
  unfold needsUpdate, hasEventChanged.
  rewrite !orb_true_iff, !differs_iff, negb_true_iff, bool_decide_eq_false. tauto.
Qed.

Section ChangeDetector.
Context {W : Type}.
Variable network : Request -> W -> (Response + string) * W.
Variable accessToken calendarId : string.
Variable googleEventsByUid : JsMap.t GoogleEvent.t.

Lemma syncOne_unchanged e existing stats seenUids r :
  JsMap.get googleEventsByUid (OutlookEvent.uid e) = Some existing ->
  needsUpdate existing e = false ->
  syncOne network accessToken calendarId googleEventsByUid e (stats, seenUids) r
  = (Returned (Stats.unchanged_incr stats, {[OutlookEvent.uid e]} ∪ seenUids), r).
Proof.
  intros Hget Hsame. unfold syncOne. rewrite Hget.
  fold (needsUpdate existing e). rewrite Hsame. reflexivity.
Qed.

Lemma syncOne_update e existing stats seenUids r :
  JsMap.get googleEventsByUid (OutlookEvent.uid e) = Some existing ->
  needsUpdate existing e = true ->
  let update := updateRequest accessToken calendarId (GoogleEvent.id existing)
                              (googleEventBody e) in
  let run := syncOne network accessToken calendarId googleEventsByUid e (stats, seenUids) r in
  sent run.2 = sent r ++ [update]
  /\ world run.2 = (network update (world r)).2
  /\ (forall response w', network update (world r) = (inl response, w') ->
        run.1 = Returned (Stats.updated_incr stats, {[OutlookEvent.uid e]} ∪ seenUids)).
Proof.
  intros Hget Hneeds update run.
  destruct (syncOne_performs network accessToken calendarId googleEventsByUid
              e stats seenUids r) as [c Hrun].
  fold run in Hrun. unfold requestFor, tally in Hrun. rewrite Hget, Hneeds in Hrun.
  fold update in Hrun. simpl in Hrun.
  destruct (network update (world r)) as [[response|err] w']; rewrite Hrun; simpl.
  - split; [reflexivity|split; [reflexivity|]]. intros ? ? _. reflexivity.
  - split; [reflexivity|split; [reflexivity|]]. intros ? ? [=].
Qed.

(** C5 (change-detector decision policy). For a source event whose uid has
    an entry in the map, the loop body hands exactly one update (a PATCH on
    the entry's item, carrying the desired representation) to [fetch] if and
    only if the stored [outlookLastModified] differs from the event's
    [lastModified] or one of summary, description, location differs between
    the item and the desired representation; the update answered, [updated]
    is incremented. When neither differs the run state is left as it was
    (nothing sent) and [unchanged] is incremented. *)
Theorem change_detector_policy e existing stats seenUids r :
  JsMap.get googleEventsByUid (OutlookEvent.uid e) = Some existing ->
  let desired := googleEventBody e in
  let stale :=
    GoogleEvent.outlookLastModified existing <> OutlookEvent.lastModified e in
  let edited :=
    GoogleEvent.summary existing <> Some (EventBody.summary desired)
    \/ GoogleEvent.description existing <> Some (EventBody.description desired)
    \/ GoogleEvent.location existing <> Some (EventBody.location desired) in
  let update := updateRequest accessToken calendarId (GoogleEvent.id existing) desired in
  let run := syncOne network accessToken calendarId googleEventsByUid e (stats, seenUids) r in
  (stale \/ edited <-> sent run.2 = sent r ++ [update])
  /\ (stale \/ edited ->
      forall response w', network update (world r) = (inl response, w') ->
        run.1 = Returned (Stats.updated_incr stats, {[OutlookEvent.uid e]} ∪ seenUids))
  /\ (~ (stale \/ edited) ->
      run = (Returned (Stats.unchanged_incr stats, {[OutlookEvent.uid e]} ∪ seenUids), r)).
Proof.
  intros Hget desired stale edited update run.
  assert (Hiff : needsUpdate existing e = true <-> stale \/ edited)
    by apply needsUpdate_iff.
  destruct (needsUpdate existing e) eqn:Hneeds.
  - destruct (syncOne_update e existing stats seenUids r Hget Hneeds) as (Hsent & _ & Hret).
    split; [|split].
    + split; [intros _; exact Hsent | intros _; apply Hiff; reflexivity].
    + intros _. exact Hret.
    + intros Hnot. exfalso. apply Hnot, Hiff. reflexivity.
  - assert (Hrun : run = (Returned (Stats.unchanged_incr stats,
                                     {[OutlookEvent.uid e]} ∪ seenUids), r))
      by (apply (syncOne_unchanged e existing); assumption).
    assert (Hnot : ~ (stale \/ edited)) by (intros H; apply Hiff in H; discriminate).
    split; [|split].
    + split; [intros H; contradiction|].
      rewrite Hrun. simpl. intros Hsent. exfalso.
      apply (f_equal length) in Hsent. rewrite length_app in Hsent. simpl in Hsent. lia.
    + intros H. contradiction.
    + intros _. exact Hrun.
Qed.
End ChangeDetector.

(** ** Completed runs *)

Section CompletedRuns.
Context {W : Type}.
Variable network : Request -> W -> (Response + string) * W.
Variable now : W -> string.
Variable accessToken calendarId : string.

Lemma syncEvents_returned outlookEvents googleEvents r res r' :
  syncEvents network now accessToken calendarId outlookEvents googleEvents r = (Returned res, r') ->
  let reqs := planned accessToken calendarId (indexByUid googleEvents) outlookEvents in
  stats res = plannedStats (indexByUid googleEvents) outlookEvents
  /\ sent r' = sent r ++ reqs
  /\ world r' = after network reqs (world r).
Proof.
  intros Hrun reqs.
  destruct (syncEvents_run network now accessToken calendarId outlookEvents googleEvents r)
    as [c Hspec].
  rewrite Hrun in Hspec. fold reqs in Hspec.
  pose proof (deliver_complete network reqs (world r)) as Hcomplete.
  destruct (deliver network reqs (world r)) as [[handed rejection] w'].
  destruct rejection as [err|]; [discriminate|].
  specialize (Hcomplete eq_refl). injection Hcomplete as -> ->.
  injection Hspec as -> ->. repeat split.
Qed.

Lemma syncEvents_answered outlookEvents googleEvents r :
  answers network ->
  let reqs := planned accessToken calendarId (indexByUid googleEvents) outlookEvents in
  exists res r',
    syncEvents network now accessToken calendarId outlookEvents googleEvents r = (Returned res, r')
    /\ stats res = plannedStats (indexByUid googleEvents) outlookEvents
    /\ sent r' = sent r ++ reqs
    /\ world r' = after network reqs (world r).
Proof.
  intros Hanswers reqs.
  destruct (syncEvents_run network now accessToken calendarId outlookEvents googleEvents r)
    as [c Hspec].
  fold reqs in Hspec. rewrite (deliver_answers network reqs (world r) Hanswers) in Hspec.
  eexists _, _. split; [exact Hspec|]. repeat split.
Qed.

Lemma syncOne_returned googleEventsByUid e stats seenUids r stats' seenUids' r' :
  syncOne network accessToken calendarId googleEventsByUid e (stats, seenUids) r
  = (Returned (stats', seenUids'), r') ->
  stats' = tally googleEventsByUid stats e.
Proof.
  intros Hrun.
  destruct (syncOne_performs network accessToken calendarId googleEventsByUid
              e stats seenUids r) as [c Hspec].
  rewrite Hrun in Hspec.
  destruct (deliver network _ (world r)) as [[handed rejection] w'].
  destruct rejection; [discriminate|]. injection Hspec as -> _ _. reflexivity.
Qed.

Lemma createGoogleEvent_answered eventBody r response w' :
  network (createRequest accessToken calendarId eventBody) (world r) = (inl response, w') ->
  (createGoogleEvent network accessToken calendarId eventBody r).1 = Returned tt.
Proof.
  intros Hnet. unfold createGoogleEvent, bind, fetch.
  fold (createRequest accessToken calendarId eventBody). rewrite Hnet.
  destruct (negb (ok response)); reflexivity.
Qed.

Lemma updateGoogleEvent_answered eventId eventBody r response w' :
  network (updateRequest accessToken calendarId eventId eventBody) (world r) = (inl response, w') ->
  (updateGoogleEvent network accessToken calendarId eventId eventBody r).1 = Returned tt.
Proof.
  intros Hnet. unfold updateGoogleEvent, bind, fetch.
  fold (updateRequest accessToken calendarId eventId eventBody). rewrite Hnet.
  destruct (negb (ok response)); reflexivity.
Qed.

Lemma deleteGoogleEvent_answered eventId r response w' :
  network (deleteRequest accessToken calendarId eventId) (world r) = (inl response, w') ->
  deleteGoogleEvent network accessToken calendarId eventId r
  = (Returned tt,
     {| world := w';
        sent := sent r ++ [deleteRequest accessToken calendarId eventId];
        console := console r
                   ++ (if negb (ok response) && negb (Nat.eqb (status response) 404)
                       then [(Error, FailedToDelete (text response))] else []) |}).
Proof.
  intros Hnet. unfold deleteGoogleEvent, bind, fetch.
  fold (deleteRequest accessToken calendarId eventId). rewrite Hnet.
  destruct (negb (ok response) && negb (Nat.eqb (status response) 404)); simpl.
  - reflexivity.
  - rewrite app_nil_r. reflexivity.
Qed.

(** C7 (per-item failure semantics). A create, update or delete whose
    request is answered, with whatever status, returns normally; a delete
    answered 404 logs nothing, exactly as a successful one, while any other
    non-success status only adds an error line. Hence against a destination
    that answers every request, with whatever statuses, [syncEvents] returns,
    has handed every planned request to [fetch], and its created, updated and
    deleted counters are the numbers of POST, PATCH and DELETE requests it
    attempted. *)
Theorem per_item_failure_semantics :
  (forall eventBody r response w',
     network (createRequest accessToken calendarId eventBody) (world r) = (inl response, w') ->
     (createGoogleEvent network accessToken calendarId eventBody r).1 = Returned tt)
  /\ (forall eventId eventBody r response w',
        network (updateRequest accessToken calendarId eventId eventBody) (world r)
        = (inl response, w') ->
        (updateGoogleEvent network accessToken calendarId eventId eventBody r).1 = Returned tt)
  /\ (forall eventId r response w',
        network (deleteRequest accessToken calendarId eventId) (world r) = (inl response, w') ->
        (deleteGoogleEvent network accessToken calendarId eventId r).1 = Returned tt
        /\ (status response = 404 \/ ok response = true ->
            console (deleteGoogleEvent network accessToken calendarId eventId r).2 = console r)
        /\ (status response <> 404 -> ok response = false ->
            console (deleteGoogleEvent network accessToken calendarId eventId r).2
            = console r ++ [(Error, FailedToDelete (text response))]))
  /\ (answers network ->
      forall outlookEvents googleEvents r,
        let reqs := planned accessToken calendarId (indexByUid googleEvents) outlookEvents in
        exists res r',
          syncEvents network now accessToken calendarId outlookEvents googleEvents r
          = (Returned res, r')
          /\ sent r' = sent r ++ reqs
          /\ Stats.created (stats res) = countMethod POST reqs
          /\ Stats.updated (stats res) = countMethod PATCH reqs
          /\ Stats.deleted (stats res) = countMethod DELETE reqs).
Proof.
  split; [exact createGoogleEvent_answered|].
  split; [exact updateGoogleEvent_answered|].
  split.
  - intros eventId r response w' Hnet.
    rewrite (deleteGoogleEvent_answered eventId r response w' Hnet). simpl.
    split; [reflexivity|]. split.
    + intros [H404 | Hok].
      * rewrite H404. simpl. rewrite andb_false_r, app_nil_r. reflexivity.
      * rewrite Hok. simpl. rewrite app_nil_r. reflexivity.
    + intros H404 Hok. rewrite Hok. apply Nat.eqb_neq in H404. rewrite H404. reflexivity.
  - intros Hanswers outlookEvents googleEvents r reqs.
    destruct (syncEvents_answered outlookEvents googleEvents r Hanswers)
      as (res & r' & Hrun & Hstats & Hsent & _).
    exists res, r'. split; [exact Hrun|]. split; [exact Hsent|].
    rewrite Hstats.
    destruct (plannedStats_counts accessToken calendarId (indexByUid googleEvents) outlookEvents)
      as (Hc & Hu & Hd & _ & _).
    repeat split; assumption.
Qed.

(** C10 (counter-sum invariant). The loop body leaves the counters with
    exactly one of created, updated, unchanged incremented; so in the result
    of every run created + updated + unchanged is the number of source
    events, and deleted is the number of map entries whose uid is not a
    source uid. A run returns a result whenever every request is answered. *)
Theorem counter_sum_invariant outlookEvents googleEvents r :
  (forall googleEventsByUid e stats seenUids r0 stats' seenUids' r1,
     syncOne network accessToken calendarId googleEventsByUid e (stats, seenUids) r0
     = (Returned (stats', seenUids'), r1) ->
     stats' = Stats.created_incr stats
     \/ stats' = Stats.updated_incr stats
     \/ stats' = Stats.unchanged_incr stats)
  /\ (forall res r',
        syncEvents network now accessToken calendarId outlookEvents googleEvents r
        = (Returned res, r') ->
        Stats.created (stats res) + Stats.updated (stats res) + Stats.unchanged (stats res)
        = length outlookEvents
        /\ Stats.deleted (stats res)
           = length (disappeared outlookEvents (indexByUid googleEvents)))
  /\ (answers network ->
      exists res r',
        syncEvents network now accessToken calendarId outlookEvents googleEvents r
        = (Returned res, r')).
Proof.
  split; [|split].
  - intros googleEventsByUid e stats seenUids r0 stats' seenUids' r1 Hrun.
    apply syncOne_returned in Hrun. subst stats'. unfold tally.
    destruct (JsMap.get googleEventsByUid (OutlookEvent.uid e)) as [existing|]; [|auto].
    destruct (needsUpdate existing e); auto.
  - intros res r' Hrun. apply syncEvents_returned in Hrun as (Hstats & _ & _).
    rewrite Hstats.
    destruct (plannedStats_counts accessToken calendarId (indexByUid googleEvents) outlookEvents)
      as (_ & _ & _ & Hd & Hsum).
    split; assumption.
  - intros Hanswers.
    destruct (syncEvents_answered outlookEvents googleEvents r Hanswers)
      as (res & r' & Hrun & _).
    exists res, r'. exact Hrun.
Qed.
End CompletedRuns.

(** ** The deletion pass *)

Section Deletion.
Context {W : Type}.
Variable network : Request -> W -> (Response + string) * W.
Variable now : W -> string.
Variable accessToken calendarId : string.

Lemma requestFor_not_delete googleEventsByUid outlookEvents :
  filter (fun req => method req = DELETE)
         (omap (requestFor accessToken calendarId googleEventsByUid) outlookEvents) = [].
Proof.
  induction outlookEvents as [|e es IH]; [reflexivity|].
  rewrite omap_cons_app, filter_app, IH, app_nil_r. unfold requestFor.
  destruct (JsMap.get googleEventsByUid (OutlookEvent.uid e)) as [existing|]; [|reflexivity].
  destruct (needsUpdate existing e); reflexivity.
Qed.

Lemma deletes_are_deletes (entries : list (string * GoogleEvent.t)) :
  filter (fun req => method req = DELETE)
         (map (fun entry => deleteRequest accessToken calendarId (GoogleEvent.id entry.2)) entries)
  = map (fun entry => deleteRequest accessToken calendarId (GoogleEvent.id entry.2)) entries.
Proof.
  induction entries as [|entry entries IH]; [reflexivity|].
  cbn [map]. rewrite filter_cons_True by reflexivity. rewrite IH. reflexivity.
Qed.

Lemma disappeared_nil (entries : list (string * GoogleEvent.t)) :
  disappeared [] entries = entries.
Proof.
  unfold disappeared. induction entries as [|entry entries IH]; [reflexivity|].
  rewrite filter_cons_True by apply not_elem_of_nil. rewrite IH. reflexivity.
Qed.

End Deletion.

(** ** The theorems at concrete inputs *)

Lemma refusing_answers : answers refusing.
Proof. intros req w. eexists _, _. reflexivity. Qed.

Lemma serve_answers : answers Calendar.serve.
Proof.
  intros req g. unfold Calendar.serve.
  destruct (method req), (url req) as [| |? [?|]|], (body req);
    try (eexists _, _; reflexivity);
    destruct (existsb _ g); eexists _, _; reflexivity.
Qed.

Lemma change_detector_policy_witness :
  sent (syncOne Calendar.serve "tok" "cal" (indexByUid calendarA) standupMoved
                (Stats.zero, ∅) (fresh_run calendarA)).2
  = [updateRequest "tok" "cal" "e1" (googleEventBody standupMoved)].
Proof.
  apply (proj1 (proj1 (change_detector_policy Calendar.serve "tok" "cal"
                         (indexByUid calendarA) standupMoved (stored "e1" standup)
                         Stats.zero ∅ (fresh_run calendarA) eq_refl))).
  left. discriminate.
Defined.

Lemma per_item_failure_semantics_witness :
  exists res r',
    syncEvents refusing (fun _ => "") "tok" "cal" [standup; review] [] (fresh_run tt)
    = (Returned res, r')
    /\ sent r' = planned "tok" "cal" [] [standup; review]
    /\ Stats.created (stats res) = 2
    /\ Stats.updated (stats res) = 0
    /\ Stats.deleted (stats res) = 0.
Proof.
  apply (proj2 (proj2 (proj2 (per_item_failure_semantics refusing (fun _ => "") "tok" "cal")))
           refusing_answers [standup; review] [] (fresh_run tt)).
Defined.

Lemma counter_sum_invariant_witness :
  exists res r', reconcile "tok" "cal" [standupMoved; review] calendarA = (Returned res, r').
Proof.
  apply (proj2 (proj2 (counter_sum_invariant Calendar.serve Calendar.now "tok" "cal"
                         [standupMoved; review] calendarA (fresh_run calendarA)))
           serve_answers).
Defined.


(** ** The destination calendar *)

Lemma string_length_append (s1 s2 : string) :
  String.length (s1 ++ s2)%string = String.length s1 + String.length s2.
Proof. induction s1 as [|c s1 IH]; simpl; [reflexivity | rewrite IH; reflexivity]. Qed.

Lemma length_le_concat (s : string) (l : list string) :
  s ∈ l -> String.length s <= String.length (fold_right String.append "" l).
Proof.
  induction l as [|s' l IH]; intros Hin.
  - apply elem_of_nil in Hin. contradiction.
  - simpl. rewrite string_length_append.
    apply elem_of_cons in Hin as [->|Hin]; [lia|]. specialize (IH Hin). lia.
Qed.

Lemma freshId_fresh g : Calendar.freshId g ∉ Calendar.ids g.
Proof.
  intros Hin. apply length_le_concat in Hin. unfold Calendar.freshId in Hin.
  simpl in Hin. lia.
Qed.

Lemma id_inj_of_NoDup (g : Calendar.t) x y :
  NoDup (Calendar.ids g) -> x ∈ g -> y ∈ g -> GoogleEvent.id x = GoogleEvent.id y -> x = y.
Proof.
  unfold Calendar.ids. induction g as [|a g IH]; intros Hnd Hx Hy Hid.
  - apply elem_of_nil in Hx. contradiction.
  - cbn [map] in Hnd. apply NoDup_cons in Hnd as [Ha Hnd].
    apply elem_of_cons in Hx as [->|Hx]; apply elem_of_cons in Hy as [->|Hy].
    + reflexivity.
    + exfalso. apply Ha. rewrite Hid. apply (list_elem_of_fmap_2 GoogleEvent.id). exact Hy.
    + exfalso. apply Ha. rewrite <- Hid. apply (list_elem_of_fmap_2 GoogleEvent.id). exact Hx.
    + apply IH; assumption.
Qed.

Lemma has_iff id x : Calendar.has id x = true <-> GoogleEvent.id x = id.
Proof. unfold Calendar.has. apply bool_decide_eq_true. Qed.

Lemma has_false_iff id x : Calendar.has id x = false <-> GoogleEvent.id x <> id.
Proof. unfold Calendar.has. apply bool_decide_eq_false. Qed.

Lemma existsb_has (g : Calendar.t) x :
  x ∈ g -> existsb (Calendar.has (GoogleEvent.id x)) g = true.
Proof.
  intros Hx. apply existsb_exists. exists x. split.
  - apply list_elem_of_In. exact Hx.
  - apply has_iff. reflexivity.
Qed.

Lemma serve_create accessToken calendarId b g :
  Calendar.serve (createRequest accessToken calendarId b) g
  = (Calendar.reply 200 "", g ++ [Calendar.insert (Calendar.freshId g) b]).
Proof. reflexivity. Qed.

Lemma serve_update accessToken calendarId x b (g : Calendar.t) :
  x ∈ g ->
  Calendar.serve (updateRequest accessToken calendarId (GoogleEvent.id x) b) g
  = (Calendar.reply 200 "",
     map (fun y => if Calendar.has (GoogleEvent.id x) y then Calendar.patch b y else y) g).
Proof. intros Hx. unfold Calendar.serve. simpl. rewrite existsb_has by exact Hx. reflexivity. Qed.

Lemma serve_delete accessToken calendarId x (g : Calendar.t) :
  x ∈ g ->
  Calendar.serve (deleteRequest accessToken calendarId (GoogleEvent.id x)) g
  = (Calendar.reply 204 "", filter (fun y => Calendar.has (GoogleEvent.id x) y = false) g).
Proof. intros Hx. unfold Calendar.serve. simpl. rewrite existsb_has by exact Hx. reflexivity. Qed.

(** A request that does not address an item leaves the item where it is. *)
Lemma serve_preserves req (g : Calendar.t) f :
  target req <> Some (GoogleEvent.id f) -> f ∈ g -> f ∈ (Calendar.serve req g).2.
Proof.
  unfold target, Calendar.serve. intros Htarget Hf.
  destruct (method req), (url req) as [| |calendarId [params|]|calendarId eventId],
    (body req) as [| |b]; simpl; try exact Hf.
  - apply elem_of_app. left. exact Hf.
  - destruct (existsb _ g); [|exact Hf]. simpl.
    apply (list_elem_of_fmap_2'
             (fun y => if Calendar.has eventId y then Calendar.patch b y else y) _ f);
      [exact Hf|].
    replace (Calendar.has eventId f) with false; [reflexivity|].
    symmetry. apply has_false_iff. congruence.
  - destruct (existsb _ g); [|exact Hf]. simpl.
    apply list_elem_of_filter. split; [|exact Hf]. apply has_false_iff. congruence.
  - destruct (existsb _ g); [|exact Hf]. simpl.
    apply list_elem_of_filter. split; [|exact Hf]. apply has_false_iff. congruence.
  - destruct (existsb _ g); [|exact Hf]. simpl.
    apply list_elem_of_filter. split; [|exact Hf]. apply has_false_iff. congruence.
Qed.

Lemma after_preserves reqs (g : Calendar.t) f :
  Forall (fun req => target req <> Some (GoogleEvent.id f)) reqs ->
  f ∈ g -> f ∈ after Calendar.serve reqs g.
Proof.
  revert g. induction reqs as [|req reqs IH]; intros g Hreqs Hf; [exact Hf|].
  apply Forall_cons in Hreqs as [Hreq Hreqs].
  apply IH; [exact Hreqs|]. apply serve_preserves; assumption.
Qed.

Lemma after_app {W} (network : Request -> W -> (Response + string) * W) l1 l2 w :
  after network (l1 ++ l2) w = after network l2 (after network l1 w).
Proof. unfold after. apply fold_left_app. Qed.

(** ** No foreign mutation *)

(** Every planned request is a create, or addresses an item of the snapshot
    that carries a non-empty [outlookSyncUid]. *)
Lemma planned_targets accessToken calendarId outlookEvents googleEvents :
  Forall (fun req =>
            target req = None
            \/ exists x, x ∈ googleEvents /\ owned x = true
                         /\ target req = Some (GoogleEvent.id x))
         (planned accessToken calendarId (indexByUid googleEvents) outlookEvents).
Proof.
  unfold planned. apply Forall_app. split.
  - apply Forall_forall. intros req Hreq.
    apply list_elem_of_omap in Hreq as (e & _ & Hreq). unfold requestFor in Hreq.
    destruct (JsMap.get (indexByUid googleEvents) (OutlookEvent.uid e)) as [x|] eqn:Hget.
    + destruct (needsUpdate x e); [|discriminate]. injection Hreq as <-.
      apply get_indexByUid_Some in Hget as [Hx Hux].
      right. exists x. split; [exact Hx|]. split; [|reflexivity].
      apply owned_ownedUid. eauto.
    + injection Hreq as <-. left. reflexivity.
  - apply Forall_forall. intros req Hreq.
    apply list_elem_of_omap in Hreq as ([uid x] & Hentry & Hreq). unfold deletionFor in Hreq.
    destruct (unseen _ (uid, x)); [|discriminate]. injection Hreq as <-.
    apply indexByUid_entry, get_indexByUid_Some in Hentry as [Hx Hux].
    right. exists x. split; [exact Hx|]. split; [|reflexivity].
    apply owned_ownedUid. eauto.
Qed.

Lemma planned_spare_foreign accessToken calendarId outlookEvents (g : Calendar.t) f :
  f ∈ g -> owned f = false -> NoDup (Calendar.ids g) ->
  Forall (fun req => target req <> Some (GoogleEvent.id f))
         (planned accessToken calendarId (indexByUid g) outlookEvents).
Proof.
  intros Hf Hforeign Hids.
  eapply Forall_impl; [apply planned_targets|]. simpl.
  intros req [Hnone | (x & Hx & Howned & Htarget)] Heq.
  - congruence.
  - assert (x = f) as ->.
    { eapply id_inj_of_NoDup; try eassumption. congruence. }
    congruence.
Qed.

Section ForeignItems.
Context {W : Type}.
Variable network : Request -> W -> (Response + string) * W.
Variable now : W -> string.
Variable accessToken calendarId : string.

(** C2 (no foreign mutation). An item of the destination snapshot without a
    (non-empty) [outlookSyncUid] is addressed by no request of the run,
    whatever the source events and whatever the network answers; and in the
    calendar the run acts on, the item is still there, as it was, after the
    run. Identifiers are the destination's own and pairwise distinct. *)
Theorem no_foreign_mutation outlookEvents (googleEvents : list GoogleEvent.t) (r : Run W) f :
  f ∈ googleEvents -> owned f = false -> NoDup (Calendar.ids googleEvents) ->
  (exists issued,
     sent (syncEvents network now accessToken calendarId outlookEvents googleEvents r).2
     = sent r ++ issued
     /\ Forall (fun req => target req <> Some (GoogleEvent.id f)) issued)
  /\ f ∈ world (reconcile accessToken calendarId outlookEvents googleEvents).2.
Proof.
  intros Hf Hforeign Hids.
  pose proof (planned_spare_foreign accessToken calendarId outlookEvents googleEvents f
                Hf Hforeign Hids) as Hspare.
  split.
  - destruct (syncEvents_run network now accessToken calendarId outlookEvents googleEvents r)
      as [c ->].
    destruct (deliver_prefix network
                (planned accessToken calendarId (indexByUid googleEvents) outlookEvents)
                (world r)) as [rest Hprefix].
    destruct (deliver network _ (world r)) as [[handed rejection] w']. simpl in *.
    exists handed. split; [reflexivity|].
    rewrite Hprefix in Hspare. apply Forall_app in Hspare as [Hhanded _]. exact Hhanded.
  - unfold reconcile.
    destruct (syncEvents_answered Calendar.serve Calendar.now accessToken calendarId
                outlookEvents googleEvents (fresh_run googleEvents) serve_answers)
      as (res & r' & Hrun & _ & _ & Hworld).
    rewrite Hrun. simpl. rewrite Hworld. apply after_preserves; assumption.
Qed.
End ForeignItems.

Lemma no_foreign_mutation_witness :
  (exists issued,
     sent (reconcile "tok" "cal" [standupMoved; review] calendarA).2 = [] ++ issued
     /\ Forall (fun req => target req <> Some "f1") issued)
  /\ foreign "f1" "Lunch" ∈ world (reconcile "tok" "cal" [standupMoved; review] calendarA).2.
Proof.
  apply (no_foreign_mutation Calendar.serve Calendar.now "tok" "cal"
           [standupMoved; review] calendarA (fresh_run calendarA) (foreign "f1" "Lunch")).
  - apply list_elem_of_here.
  - reflexivity.
  - compute_done.
Defined.

(** ** Updates *)

Lemma patch_only (g : Calendar.t) x b :
  NoDup (Calendar.ids g) -> x ∈ g ->
  forall y, y ∈ g ->
    (if Calendar.has (GoogleEvent.id x) y then Calendar.patch b y else y)
    = if decide (y = x) then Calendar.patch b x else y.
Proof.
  intros Hids Hx y Hy. destruct (decide (y = x)) as [->|Hne].
  - replace (Calendar.has (GoogleEvent.id x) x) with true; [reflexivity|].
    symmetry. apply has_iff. reflexivity.
  - replace (Calendar.has (GoogleEvent.id x) y) with false; [reflexivity|].
    symmetry. apply has_false_iff. intros Hid. apply Hne.
    eapply id_inj_of_NoDup; eassumption.
Qed.




(** ** Idempotence *)

Lemma ownedUid_insert id e :
  OutlookEvent.uid e <> "" ->
  ownedUid (Calendar.insert id (googleEventBody e)) = Some (OutlookEvent.uid e).
Proof. intros Huid. apply ownedUid_stored. split; [reflexivity | exact Huid]. Qed.

Lemma ownedUid_patch e x :
  OutlookEvent.uid e <> "" ->
  ownedUid (Calendar.patch (googleEventBody e) x) = Some (OutlookEvent.uid e).
Proof. intros Huid. apply ownedUid_stored. split; [reflexivity | exact Huid]. Qed.

Lemma differs_same s : differs (Some s) s = false.
Proof. unfold differs. rewrite bool_decide_eq_true_2 by reflexivity. reflexivity. Qed.

Lemma insert_up_to_date id e :
  needsUpdate (Calendar.insert id (googleEventBody e)) e = false.
Proof.
  unfold needsUpdate, hasEventChanged. simpl.
  rewrite bool_decide_eq_true_2 by reflexivity. rewrite !differs_same. reflexivity.
Qed.

Lemma patch_up_to_date e x :
  OutlookEvent.lastModified e <> None ->
  needsUpdate (Calendar.patch (googleEventBody e) x) e = false.
Proof.
  intros Hstamp. unfold needsUpdate, hasEventChanged. simpl.
  destruct (OutlookEvent.lastModified e) as [t|]; [|contradiction]. simpl.
  rewrite bool_decide_eq_true_2 by reflexivity. rewrite !differs_same. reflexivity.
Qed.

Lemma uid_inj_of_NoDup (outlookEvents : list OutlookEvent.t) e e' :
  NoDup (uids outlookEvents) -> e ∈ outlookEvents -> e' ∈ outlookEvents ->
  OutlookEvent.uid e = OutlookEvent.uid e' -> e = e'.
Proof.
  unfold uids. induction outlookEvents as [|a l IH]; intros Hnd He He' Huid.
  - apply elem_of_nil in He. contradiction.
  - cbn [map] in Hnd. apply NoDup_cons in Hnd as [Ha Hnd].
    apply elem_of_cons in He as [->|He]; apply elem_of_cons in He' as [->|He'].
    + reflexivity.
    + exfalso. apply Ha. rewrite Huid. apply (list_elem_of_fmap_2 OutlookEvent.uid). exact He'.
    + exfalso. apply Ha. rewrite <- Huid. apply (list_elem_of_fmap_2 OutlookEvent.uid). exact He.
    + apply IH; assumption.
Qed.

Lemma uids_snoc done e : uids (done ++ [e]) = uids done ++ [OutlookEvent.uid e].
Proof. unfold uids. apply map_app. Qed.

Lemma not_elem_of_uids_snoc u done e :
  u ∉ uids (done ++ [e]) <-> (u ∉ uids done) /\ u <> OutlookEvent.uid e.
Proof.
  rewrite uids_snoc, elem_of_app, list_elem_of_singleton. tauto.
Qed.

Section Idempotence.
Variable accessToken calendarId : string.
Variable g : list GoogleEvent.t.
Hypothesis g_uids : NoDup (omap ownedUid g).

Lemma settled_start : NoDup (Calendar.ids g) -> settled g [] [] g.
Proof.
  intros Hids. split; [exact Hids|]. split; [|split].
  - intros y u Hy Hu. right. repeat split; [|exact Hy|]; apply not_elem_of_nil.
  - intros x u Hx _ _ _. exact Hx.
  - intros e He. apply elem_of_nil in He. contradiction.
Qed.

Lemma settled_keep done h e x :
  settled g done [] h ->
  JsMap.get (indexByUid g) (OutlookEvent.uid e) = Some x ->
  needsUpdate x e = false ->
  OutlookEvent.uid e ∉ uids done ->
  settled g (done ++ [e]) [] h.
Proof.
  intros (Hids & Hitems & Hkept & Hdone) Hget Hsame Hnew.
  apply get_indexByUid_Some in Hget as [Hx Hux].
  split; [exact Hids|]. split; [|split].
  - intros y u Hy Hu. destruct (Hitems y u Hy Hu) as [(e' & He' & Huid & Hok) | (Hu' & Hyg & _)].
    + left. exists e'. split; [apply elem_of_app; left; exact He'|]. split; assumption.
    + destruct (decide (u = OutlookEvent.uid e)) as [->|Hne].
      * left. exists e. split; [apply elem_of_app; right; apply list_elem_of_here|].
        split; [reflexivity|].
        assert (y = x) as -> by (eapply omap_NoDup_inj; eassumption). exact Hsame.
      * right. split; [apply not_elem_of_uids_snoc; split; assumption|].
        split; [exact Hyg | apply not_elem_of_nil].
  - intros x' u Hx' Hu Hnot Hdel. apply not_elem_of_uids_snoc in Hnot as [Hnot _].
    eapply Hkept; eassumption.
  - intros e' He'. apply elem_of_app in He' as [He'|He'].
    + apply Hdone. exact He'.
    + rewrite list_elem_of_singleton in He'. subst e'. exists x. split; [|exact Hux].
      eapply Hkept; [exact Hx | exact Hux | exact Hnew | apply not_elem_of_nil].
Qed.

Lemma settled_create done h e :
  settled g done [] h ->
  JsMap.get (indexByUid g) (OutlookEvent.uid e) = None ->
  OutlookEvent.uid e <> "" ->
  settled g (done ++ [e]) []
          (h ++ [Calendar.insert (Calendar.freshId h) (googleEventBody e)]).
Proof.
  intros (Hids & Hitems & Hkept & Hdone) Hget Huid.
  pose proof (get_indexByUid_None g _ Hget) as Hnone.
  split; [|split; [|split]].
  - unfold Calendar.ids in *. rewrite map_app. apply NoDup_app. split; [exact Hids|].
    split; [|apply NoDup_singleton].
    intros i Hi Hi'. simpl in Hi'. rewrite list_elem_of_singleton in Hi'. subst i.
    exact (freshId_fresh h Hi).
  - intros y u Hy Hu. apply elem_of_app in Hy as [Hy|Hy].
    + destruct (Hitems y u Hy Hu) as [(e' & He' & Huid' & Hok) | (Hu' & Hyg & _)].
      * left. exists e'. split; [apply elem_of_app; left; exact He'|]. split; assumption.
      * right. split; [|split; [exact Hyg | apply not_elem_of_nil]].
        apply not_elem_of_uids_snoc. split; [exact Hu'|].
        intros ->. exact (Hnone y Hyg Hu).
    + rewrite list_elem_of_singleton in Hy. subst y.
      rewrite ownedUid_insert in Hu by exact Huid. injection Hu as <-.
      left. exists e. split; [apply elem_of_app; right; apply list_elem_of_here|].
      split; [reflexivity | apply insert_up_to_date].
  - intros x u Hx Hu Hnot Hdel. apply not_elem_of_uids_snoc in Hnot as [Hnot _].
    apply elem_of_app. left. eapply Hkept; eassumption.
  - intros e' He'. apply elem_of_app in He' as [He'|He'].
    + destruct (Hdone e' He') as (y & Hy & Hu). exists y.
      split; [apply elem_of_app; left; exact Hy | exact Hu].
    + rewrite list_elem_of_singleton in He'. subst e'.
      exists (Calendar.insert (Calendar.freshId h) (googleEventBody e)).
      split; [apply elem_of_app; right; apply list_elem_of_here|].
      apply ownedUid_insert. exact Huid.
Qed.
Lemma settled_update done h e x :
  settled g done [] h ->
  JsMap.get (indexByUid g) (OutlookEvent.uid e) = Some x ->
  OutlookEvent.uid e ∉ uids done ->
  OutlookEvent.uid e <> "" ->
  OutlookEvent.lastModified e <> None ->
  settled g (done ++ [e]) []
          (map (fun y => if Calendar.has (GoogleEvent.id x) y
                         then Calendar.patch (googleEventBody e) y else y) h).
Proof.
  intros (Hids & Hitems & Hkept & Hdone) Hget Hnew Huid Hstamp.
  apply get_indexByUid_Some in Hget as [Hx Hux].
  assert (Hxh : x ∈ h).
  { eapply Hkept; [exact Hx | exact Hux | exact Hnew | apply not_elem_of_nil]. }
  set (b := googleEventBody e).
  set (F := fun y => if Calendar.has (GoogleEvent.id x) y then Calendar.patch b y else y).
  assert (HF : forall y, y ∈ h -> F y = if decide (y = x) then Calendar.patch b x else y).
  { intros y Hy. apply (patch_only h); assumption. }
  assert (Hmem : forall y', y' ∈ map F h -> exists y, y ∈ h /\ y' = F y).
  { intros y' Hy'. apply (list_elem_of_fmap_1 F) in Hy' as (y & -> & Hy). eauto. }
  split; [|split; [|split]].
  - unfold Calendar.ids in *. rewrite map_map.
    replace (map (fun y => GoogleEvent.id (F y)) h) with (map GoogleEvent.id h); [exact Hids|].
    apply map_ext. intros y. unfold F. destruct (Calendar.has (GoogleEvent.id x) y); reflexivity.
  - intros y' u Hy' Hu. apply Hmem in Hy' as (y & Hy & ->). rewrite (HF y Hy) in Hu |- *.
    destruct (decide (y = x)) as [->|Hne].
    + unfold b in Hu. rewrite ownedUid_patch in Hu by exact Huid. injection Hu as <-.
      left. exists e. split; [apply elem_of_app; right; apply list_elem_of_here|].
      split; [reflexivity | apply patch_up_to_date; exact Hstamp].
    + destruct (Hitems y u Hy Hu) as [(e' & He' & Huid' & Hok) | (Hu' & Hyg & _)].
      * left. exists e'. split; [apply elem_of_app; left; exact He'|]. split; assumption.
      * right. split; [|split; [exact Hyg | apply not_elem_of_nil]].
        apply not_elem_of_uids_snoc. split; [exact Hu'|].
        intros ->. apply Hne. eapply omap_NoDup_inj; eassumption.
  - intros x' u Hx' Hu Hnot Hdel. apply not_elem_of_uids_snoc in Hnot as [Hnot Hne].
    assert (Hx'h : x' ∈ h) by (eapply Hkept; eassumption).
    apply (list_elem_of_fmap_2' F _ x'); [exact Hx'h|].
    rewrite (HF x' Hx'h). rewrite decide_False; [reflexivity|].
    intros ->. congruence.
  - intros e' He'. apply elem_of_app in He' as [He'|He'].
    + destruct (Hdone e' He') as (y & Hy & Hu). exists (F y).
      split; [apply (list_elem_of_fmap_2 F); exact Hy|].
      rewrite (HF y Hy). destruct (decide (y = x)) as [->|Hne]; [|exact Hu].
      unfold b. rewrite ownedUid_patch by exact Huid. congruence.
    + rewrite list_elem_of_singleton in He'. subst e'. exists (F x).
      split; [apply (list_elem_of_fmap_2 F); exact Hxh|].
      rewrite (HF x Hxh), decide_True by reflexivity.
      apply ownedUid_patch. exact Huid.
Qed.

Lemma settled_delete done deleted h u x :
  settled g done deleted h ->
  JsMap.get (indexByUid g) u = Some x ->
  u ∉ uids done ->
  (u, x) ∉ deleted ->
  settled g done (deleted ++ [(u, x)])
          (filter (fun y => Calendar.has (GoogleEvent.id x) y = false) h).
Proof.
  intros (Hids & Hitems & Hkept & Hdone) Hget Hgone Hfresh.
  apply get_indexByUid_Some in Hget as [Hx Hux].
  assert (Hxh : x ∈ h) by (eapply Hkept; eassumption).
  assert (Hrest : forall y, y ∈ h -> y <> x -> Calendar.has (GoogleEvent.id x) y = false).
  { intros y Hy Hne. apply has_false_iff. intros Hid. apply Hne.
    eapply id_inj_of_NoDup; eassumption. }
  split; [|split; [|split]].
  - unfold Calendar.ids in *. eapply sublist_NoDup; [exact Hids|].
    apply (fmap_sublist GoogleEvent.id), sublist_filter.
  - intros y u' Hy Hu'. apply list_elem_of_filter in Hy as [Hhas Hy].
    assert (Hne : y <> x).
    { intros ->. apply has_false_iff in Hhas. congruence. }
    destruct (Hitems y u' Hy Hu') as [Hleft | (Hu'' & Hyg & Hdel)]; [left; exact Hleft|].
    right. split; [exact Hu''|]. split; [exact Hyg|].
    intros Hin. apply elem_of_app in Hin as [Hin|Hin]; [contradiction|].
    rewrite list_elem_of_singleton in Hin. congruence.
  - intros x' u' Hx' Hu' Hnot Hdel.
    assert (Hdel' : (u', x') ∉ deleted).
    { intros Hin. apply Hdel, elem_of_app. left. exact Hin. }
    assert (Hne : x' <> x).
    { intros ->. apply Hdel, elem_of_app. right.
      rewrite list_elem_of_singleton. congruence. }
    apply list_elem_of_filter. split.
    + apply Hrest; [eapply Hkept; eassumption | exact Hne].
    + eapply Hkept; eassumption.
  - intros e He. destruct (Hdone e He) as (y & Hy & Hu). exists y. split; [|exact Hu].
    apply list_elem_of_filter. split; [|exact Hy]. apply Hrest; [exact Hy|].
    intros ->. apply Hgone. rewrite Hux in Hu. injection Hu as ->.
    apply (list_elem_of_fmap_2 OutlookEvent.uid). exact He.
Qed.
Lemma settled_events rest :
  forall done h,
    NoDup (uids (done ++ rest)) ->
    Forall (fun e => OutlookEvent.uid e <> "" /\ OutlookEvent.lastModified e <> None) rest ->
    settled g done [] h ->
    settled g (done ++ rest) []
            (after Calendar.serve
                   (omap (requestFor accessToken calendarId (indexByUid g)) rest) h).
Proof.
  induction rest as [|e rest IH]; intros done h Hnd Hrest Hsettled.
  - rewrite app_nil_r. exact Hsettled.
  - apply Forall_cons in Hrest as [[Huid Hstamp] Hrest].
    assert (Hnew : OutlookEvent.uid e ∉ uids done).
    { unfold uids in *. rewrite map_app in Hnd. apply NoDup_app in Hnd as (_ & Hdisjoint & _).
      intros Hin. apply (Hdisjoint _ Hin). apply list_elem_of_here. }
    rewrite omap_cons_app, after_app.
    replace (done ++ e :: rest) with ((done ++ [e]) ++ rest) in *
      by (rewrite <- app_assoc; reflexivity).
    apply IH; [exact Hnd | exact Hrest |].
    unfold requestFor.
    destruct (JsMap.get (indexByUid g) (OutlookEvent.uid e)) as [x|] eqn:Hget.
    + destruct (needsUpdate x e) eqn:Hneeds.
      * assert (Hxh : x ∈ h).
        { destruct Hsettled as (_ & _ & Hkept & _).
          pose proof (get_indexByUid_Some g _ x Hget) as [Hx Hux].
          eapply Hkept; [exact Hx | exact Hux | exact Hnew | apply not_elem_of_nil]. }
        unfold after. simpl. rewrite serve_update by exact Hxh. simpl.
        apply settled_update; assumption.
      * unfold after. simpl. eapply settled_keep; eassumption.
    + unfold after. simpl. apply settled_create; assumption.
Qed.

Lemma settled_deletions src entries :
  forall deleted h,
    NoDup (deleted ++ entries).*1 ->
    (forall u x, (u, x) ∈ entries ->
       JsMap.get (indexByUid g) u = Some x /\ u ∉ uids src) ->
    settled g src deleted h ->
    settled g src (deleted ++ entries)
            (after Calendar.serve
                   (map (fun entry => deleteRequest accessToken calendarId
                                                    (GoogleEvent.id entry.2)) entries) h).
Proof.
  induction entries as [|[u x] entries IH]; intros deleted h Hnd Hentries Hsettled.
  - rewrite app_nil_r. exact Hsettled.
  - destruct (Hentries u x (list_elem_of_here _ _)) as [Hget Hgone].
    assert (Hfresh : (u, x) ∉ deleted).
    { rewrite fmap_app in Hnd. apply NoDup_app in Hnd as (_ & Hdisjoint & _).
      intros Hin. apply (Hdisjoint u).
      - apply (list_elem_of_fmap_2 fst _ (u, x)). exact Hin.
      - apply list_elem_of_here. }
    assert (Hxh : x ∈ h).
    { destruct Hsettled as (_ & _ & Hkept & _).
      pose proof (get_indexByUid_Some g _ x Hget) as [Hx Hux].
      eapply Hkept; eassumption. }
    replace (deleted ++ (u, x) :: entries) with ((deleted ++ [(u, x)]) ++ entries) in *
      by (rewrite <- app_assoc; reflexivity).
    cbn [map]. change (after Calendar.serve (?req :: ?reqs) h)
      with (after Calendar.serve reqs (Calendar.serve req h).2).
    cbn [snd]. rewrite serve_delete by exact Hxh. cbn [snd].
    apply IH; [exact Hnd | |].
    + intros u' x' Hin. apply Hentries. apply list_elem_of_further. exact Hin.
    + apply settled_delete; assumption.
Qed.

(** After a run, every source event has an up-to-date item in the map built
    from the calendar, and no entry of that map has disappeared. *)
Lemma settled_end src h :
  NoDup (uids src) ->
  settled g src (disappeared src (indexByUid g)) h ->
  (forall e, e ∈ src ->
     exists y, JsMap.get (indexByUid h) (OutlookEvent.uid e) = Some y
               /\ needsUpdate y e = false)
  /\ disappeared src (indexByUid h) = [].
Proof.
  intros Hnd (Hids & Hitems & Hkept & Hdone).
  assert (Hall : forall y u, y ∈ h -> ownedUid y = Some u ->
            exists e, e ∈ src /\ OutlookEvent.uid e = u /\ needsUpdate y e = false).
  { intros y u Hy Hu. destruct (Hitems y u Hy Hu) as [Hleft | (Hgone & Hyg & Hdel)];
      [exact Hleft|].
    exfalso. apply Hdel. apply list_elem_of_filter. split; [exact Hgone|].
    apply indexByUid_entry. apply get_indexByUid_of; assumption. }
  split.
  - intros e He. destruct (Hdone e He) as (y0 & Hy0 & Hu0).
    destruct (JsMap.get (indexByUid h) (OutlookEvent.uid e)) as [y|] eqn:Hget.
    + exists y. split; [reflexivity|].
      apply get_indexByUid_Some in Hget as [Hy Hu].
      destruct (Hall y _ Hy Hu) as (e' & He' & Huid & Hok).
      assert (e' = e) as -> by (eapply uid_inj_of_NoDup; eassumption). exact Hok.
    + exfalso. eapply get_indexByUid_None; eassumption.
  - unfold disappeared.
    destruct (filter _ (indexByUid h)) as [|[u y] rest] eqn:Hfilter; [reflexivity|].
    exfalso.
    assert (Hin : (u, y) ∈ filter (fun entry => entry.1 ∉ uids src) (indexByUid h))
      by (rewrite Hfilter; apply list_elem_of_here).
    apply list_elem_of_filter in Hin as [Hgone Hentry].
    apply indexByUid_entry, get_indexByUid_Some in Hentry as [Hy Hu].
    destruct (Hall y u Hy Hu) as (e & He & Huid & _).
    apply Hgone. simpl. rewrite <- Huid. apply (list_elem_of_fmap_2 OutlookEvent.uid). exact He.
Qed.
End Idempotence.

Lemma up_to_date_plan accessToken calendarId googleEventsByUid outlookEvents :
  (forall e, e ∈ outlookEvents ->
     exists y, JsMap.get googleEventsByUid (OutlookEvent.uid e) = Some y
               /\ needsUpdate y e = false) ->
  disappeared outlookEvents googleEventsByUid = [] ->
  planned accessToken calendarId googleEventsByUid outlookEvents = []
  /\ plannedStats googleEventsByUid outlookEvents
     = {| Stats.created := 0; Stats.updated := 0; Stats.deleted := 0;
          Stats.unchanged := length outlookEvents |}.
Proof.
  intros Hfresh Hgone.
  assert (Hreqs : omap (requestFor accessToken calendarId googleEventsByUid) outlookEvents = []).
  { clear Hgone. induction outlookEvents as [|e es IH]; [reflexivity|].
    rewrite omap_cons_app, IH.
    - destruct (Hfresh e (list_elem_of_here _ _)) as (y & Hget & Hok).
      unfold requestFor. rewrite Hget, Hok. reflexivity.
    - intros e' He'. apply Hfresh. apply list_elem_of_further. exact He'. }
  split.
  - unfold planned. rewrite Hreqs, deletions_planned, Hgone. reflexivity.
  - unfold plannedStats.
    assert (Htally : forall stats,
              fold_left (tally googleEventsByUid) outlookEvents stats
              = {| Stats.created := Stats.created stats; Stats.updated := Stats.updated stats;
                   Stats.deleted := Stats.deleted stats;
                   Stats.unchanged := Stats.unchanged stats + length outlookEvents |}).
    { clear Hreqs Hgone. induction outlookEvents as [|e es IH]; intros stats.
      - destruct stats. simpl. f_equal. lia.
      - cbn [fold_left]. rewrite IH.
        + destruct (Hfresh e (list_elem_of_here _ _)) as (y & Hget & Hok).
          unfold tally. rewrite Hget, Hok. simpl. f_equal. lia.
        + intros e' He'. apply Hfresh. apply list_elem_of_further. exact He'. }
    rewrite Htally.
    destruct (tallyDeleted_counts outlookEvents googleEventsByUid
                {| Stats.created := Stats.created Stats.zero;
                   Stats.updated := Stats.updated Stats.zero;
                   Stats.deleted := Stats.deleted Stats.zero;
                   Stats.unchanged := Stats.unchanged Stats.zero + length outlookEvents |})
      as (Hc & Hu & Hn & Hd).
    rewrite Hgone in Hd.
    destruct (fold_left _ googleEventsByUid _) as [c u d n]. simpl in *. subst. reflexivity.
Qed.




(** * Further properties of the worker *)

(** ** The loop body on a source event without an entry *)

Lemma get_indexByUid_absent g uid :
  (forall x, x ∈ g -> ownedUid x <> Some uid) -> JsMap.get (indexByUid g) uid = None.
Proof.
  intros Habsent. destruct (JsMap.get (indexByUid g) uid) as [x|] eqn:Hget; [|reflexivity].
  apply get_indexByUid_Some in Hget as [Hx Hux]. exfalso. exact (Habsent x Hx Hux).
Qed.

Section Creation.
Context {W : Type}.
Variable network : Request -> W -> (Response + string) * W.
Variable accessToken calendarId : string.

Lemma createGoogleEvent_run eventBody r :
  createGoogleEvent network accessToken calendarId eventBody r
  = match network (createRequest accessToken calendarId eventBody) (world r) with
    | (inl response, w') =>
        (Returned tt,
         {| world := w';
            sent := sent r ++ [createRequest accessToken calendarId eventBody];
            console := console r
                       ++ (if negb (ok response)
                           then [(Error, FailedToCreate (text response))] else []) |})
    | (inr e, w') =>
        (Thrown e,
         {| world := w';
            sent := sent r ++ [createRequest accessToken calendarId eventBody];
            console := console r |})
    end.
Proof.
  unfold createGoogleEvent, bind, fetch.
  fold (createRequest accessToken calendarId eventBody).
  destruct (network (createRequest accessToken calendarId eventBody) (world r))
    as [[response|e] w']; [|reflexivity].
  destruct (negb (ok response)); simpl; [reflexivity|].
  rewrite app_nil_r. reflexivity.
Qed.

Lemma updateGoogleEvent_run eventId eventBody r :
  updateGoogleEvent network accessToken calendarId eventId eventBody r
  = match network (updateRequest accessToken calendarId eventId eventBody) (world r) with
    | (inl response, w') =>
        (Returned tt,
         {| world := w';
            sent := sent r ++ [updateRequest accessToken calendarId eventId eventBody];
            console := console r
                       ++ (if negb (ok response)
                           then [(Error, FailedToUpdate (text response))] else []) |})
    | (inr e, w') =>
        (Thrown e,
         {| world := w';
            sent := sent r ++ [updateRequest accessToken calendarId eventId eventBody];
            console := console r |})
    end.
Proof.
  unfold updateGoogleEvent, bind, fetch.
  fold (updateRequest accessToken calendarId eventId eventBody).
  destruct (network (updateRequest accessToken calendarId eventId eventBody) (world r))
    as [[response|e] w']; [|reflexivity].
  destruct (negb (ok response)); simpl; [reflexivity|].
  rewrite app_nil_r. reflexivity.
Qed.

(** X1 (create on absence). For a source event whose uid no item of the
    destination snapshot carries as a non-empty [outlookSyncUid], the loop
    body hands exactly one request to [fetch]: a POST on the collection whose
    body carries the event's uid and stamp. Answered, with whatever status,
    it increments [created] and logs the creation (after an error line when
    the status is not a success); rejected, it throws and logs nothing. *)
Theorem create_on_absence (googleEvents : list GoogleEvent.t) e stats seenUids r :
  (forall x, x ∈ googleEvents -> ownedUid x <> Some (OutlookEvent.uid e)) ->
  let create := createRequest accessToken calendarId (googleEventBody e) in
  let run := syncOne network accessToken calendarId (indexByUid googleEvents) e
                     (stats, seenUids) r in
  sent run.2 = sent r ++ [create]
  /\ method create = POST
  /\ url create = EventsUrl calendarId None
  /\ (exists b, body create = EventJson b
                /\ EventBody.outlookSyncUid b = OutlookEvent.uid e
                /\ EventBody.outlookLastModified b = OutlookEvent.lastModified e)
  /\ (forall response w', network create (world r) = (inl response, w') ->
        run.1 = Returned (Stats.created_incr stats, {[OutlookEvent.uid e]} ∪ seenUids)
        /\ world run.2 = w'
        /\ console run.2
           = console r
             ++ (if ok response then [] else [(Error, FailedToCreate (text response))])
             ++ [(Info, Created (OutlookEvent.summary e) (OutlookEvent.start e))])
  /\ (forall err w', network create (world r) = (inr err, w') ->
        run.1 = Thrown err /\ world run.2 = w' /\ console run.2 = console r).
Proof.
  intros Habsent create run.
  assert (Hrun : run = bind (createGoogleEvent network accessToken calendarId (googleEventBody e))
                        (fun _ => bind (console_log (Created (OutlookEvent.summary e)
                                                             (OutlookEvent.start e)))
                           (fun _ => ret (Stats.created_incr stats,
                                          {[OutlookEvent.uid e]} ∪ seenUids))) r).
  { unfold run, syncOne. rewrite (get_indexByUid_absent _ _ Habsent). reflexivity. }
  unfold bind in Hrun. rewrite createGoogleEvent_run in Hrun. fold create in Hrun.
  destruct (network create (world r)) as [[response|err] w'] eqn:Hnet; rewrite Hrun.
  - split; [reflexivity|]. split; [reflexivity|]. split; [reflexivity|].
    split; [eexists; repeat split|]. split.
    + intros response' w'' [= <- <-]. simpl. split; [reflexivity|]. split; [reflexivity|].
      rewrite <- app_assoc. destruct (ok response); reflexivity.
    + intros err w'' [=].
  - split; [reflexivity|]. split; [reflexivity|]. split; [reflexivity|].
    split; [eexists; repeat split|]. split.
    + intros response w'' [=].
    + intros err' w'' [= <- <-]. repeat split.
Qed.

(** X12 (what the writers log). A create or an update logs one error line
    holding the text of the response when the status is outside 200-299, and
    nothing otherwise; either way it hands its one request to [fetch],
    returns, and leaves the world as the network left it. *)
Theorem writers_log_failures eventId eventBody r response w' :
  (network (createRequest accessToken calendarId eventBody) (world r) = (inl response, w') ->
   createGoogleEvent network accessToken calendarId eventBody r
   = (Returned tt,
      {| world := w';
         sent := sent r ++ [createRequest accessToken calendarId eventBody];
         console := console r
                    ++ (if Nat.leb 200 (status response) && Nat.leb (status response) 299
                        then [] else [(Error, FailedToCreate (text response))]) |}))
  /\ (network (updateRequest accessToken calendarId eventId eventBody) (world r)
      = (inl response, w') ->
      updateGoogleEvent network accessToken calendarId eventId eventBody r
      = (Returned tt,
         {| world := w';
            sent := sent r ++ [updateRequest accessToken calendarId eventId eventBody];
            console := console r
                       ++ (if Nat.leb 200 (status response) && Nat.leb (status response) 299
                           then [] else [(Error, FailedToUpdate (text response))]) |})).
Proof.
  split; intros Hnet.
  - rewrite createGoogleEvent_run, Hnet. unfold ok.
    destruct (Nat.leb 200 (status response) && Nat.leb (status response) 299); reflexivity.
  - rewrite updateGoogleEvent_run, Hnet. unfold ok.
    destruct (Nat.leb 200 (status response) && Nat.leb (status response) 299); reflexivity.
Qed.
End Creation.

Lemma create_on_absence_witness :
  sent (syncOne Calendar.serve "tok" "cal" (indexByUid calendarA) review
                (Stats.zero, ∅) (fresh_run calendarA)).2
  = [] ++ [createRequest "tok" "cal" (googleEventBody review)].
Proof.
  apply (create_on_absence Calendar.serve "tok" "cal" calendarA review Stats.zero ∅
           (fresh_run calendarA)).
  intros x Hx. apply elem_of_cons in Hx as [->|Hx]; [discriminate|].
  apply list_elem_of_singleton in Hx as ->. discriminate.
Defined.

Lemma writers_log_failures_witness :
  createGoogleEvent refusing "tok" "cal" (googleEventBody review) (fresh_run tt)
  = (Returned tt,
     {| world := tt;
        sent := [createRequest "tok" "cal" (googleEventBody review)];
        console := [(Error, FailedToCreate "Internal Server Error")] |}).
Proof.
  apply (proj1 (writers_log_failures refusing "tok" "cal" "e1" (googleEventBody review)
                  (fresh_run tt) {| status := 500; text := "Internal Server Error" |} tt)).
  reflexivity.
Defined.

(** ** Runs as a whole *)

Section WholeRuns.
Context {W : Type}.
Variable network : Request -> W -> (Response + string) * W.
Variable now : W -> string.
Variable accessToken calendarId : string.

Lemma tally_cases googleEventsByUid outlookEvents stats :
  let stats' := fold_left (tally googleEventsByUid) outlookEvents stats in
  Stats.created stats'
  = Stats.created stats + length (List.filter (isAbsent googleEventsByUid) outlookEvents)
  /\ Stats.updated stats'
     = Stats.updated stats + length (List.filter (isStale googleEventsByUid) outlookEvents)
  /\ Stats.unchanged stats'
     = Stats.unchanged stats + length (List.filter (isCurrent googleEventsByUid) outlookEvents).
Proof.
  revert stats. induction outlookEvents as [|e es IH]; intros stats; cbn zeta.
  - simpl. lia.
  - cbn [fold_left List.filter]. specialize (IH (tally googleEventsByUid stats e)).
    cbn zeta in IH. destruct IH as (Hc & Hu & Hn). rewrite Hc, Hu, Hn.
    unfold tally, isAbsent, isStale, isCurrent.
    destruct (JsMap.get googleEventsByUid (OutlookEvent.uid e)) as [x|]; [|simpl; lia].
    destruct (needsUpdate x e); simpl; lia.
Qed.

Lemma creations_planned googleEventsByUid outlookEvents :
  filter (fun req => method req = POST)
         (omap (requestFor accessToken calendarId googleEventsByUid) outlookEvents)
  = map (fun e => createRequest accessToken calendarId (googleEventBody e))
        (List.filter (isAbsent googleEventsByUid) outlookEvents).
Proof.
  induction outlookEvents as [|e es IH]; [reflexivity|].
  rewrite omap_cons_app, filter_app, IH. cbn [List.filter].
  unfold requestFor, isAbsent.
  destruct (JsMap.get googleEventsByUid (OutlookEvent.uid e)) as [x|]; [|reflexivity].
  destruct (needsUpdate x e); reflexivity.
Qed.

Lemma deletes_not_post (entries : list (string * GoogleEvent.t)) :
  filter (fun req => method req = POST)
         (map (fun entry => deleteRequest accessToken calendarId (GoogleEvent.id entry.2))
              entries) = [].
Proof.
  induction entries as [|entry entries IH]; [reflexivity|].
  cbn [map]. rewrite filter_cons_False by discriminate. exact IH.
Qed.

(** X2 (the counters, case by case). The map is built once, before the
    loop, and never updated: in the result of a run, created is the number
    of source events whose uid has no entry, updated the number of those
    whose entry is stale, unchanged the number of those whose entry is up to
    date, and the POST requests are one per source event without entry, in
    source order. So [k] source events sharing a uid that has no entry are
    created [k] times. *)
Theorem counters_by_case outlookEvents googleEvents r res r' :
  syncEvents network now accessToken calendarId outlookEvents googleEvents r = (Returned res, r') ->
  let googleEventsByUid := indexByUid googleEvents in
  Stats.created (stats res) = length (List.filter (isAbsent googleEventsByUid) outlookEvents)
  /\ Stats.updated (stats res) = length (List.filter (isStale googleEventsByUid) outlookEvents)
  /\ Stats.unchanged (stats res)
     = length (List.filter (isCurrent googleEventsByUid) outlookEvents)
  /\ exists issued,
       sent r' = sent r ++ issued
       /\ filter (fun req => method req = POST) issued
          = map (fun e => createRequest accessToken calendarId (googleEventBody e))
                (List.filter (isAbsent googleEventsByUid) outlookEvents).
Proof.
  intros Hrun idx.
  apply syncEvents_returned in Hrun as (Hstats & Hsent & _). fold idx in Hstats, Hsent.
  destruct (tally_cases idx outlookEvents Stats.zero) as (Hc & Hu & Hn).
  destruct (tallyDeleted_counts outlookEvents idx (fold_left (tally idx) outlookEvents Stats.zero))
    as (Hc' & Hu' & Hn' & _).
  rewrite Hstats. unfold plannedStats. rewrite Hc', Hu', Hn', Hc, Hu, Hn.
  repeat split.
  exists (planned accessToken calendarId idx outlookEvents). split; [exact Hsent|].
  unfold planned. rewrite filter_app, creations_planned, deletions_planned, deletes_not_post.
  apply app_nil_r.
Qed.

Lemma deliver_rejected reqs w err :
  (deliver network reqs w).1.2 = Some err ->
  exists done req rest,
    reqs = done ++ req :: rest
    /\ (deliver network reqs w).1.1 = done ++ [req]
    /\ network req (after network done w) = (inr err, (deliver network reqs w).2).
Proof.
  revert w. induction reqs as [|req reqs IH]; intros w; simpl; [discriminate|].
  destruct (network req w) as [[response|e] w'] eqn:Hnet.
  - specialize (IH w'). destruct (deliver network reqs w') as [[handed rejection] w''].
    simpl in *. intros Hrej. destruct (IH Hrej) as (done & req' & rest & -> & -> & Hnet').
    exists (req :: done), req', rest. split; [reflexivity|]. split; [reflexivity|].
    unfold after in *. simpl. rewrite Hnet. exact Hnet'.
  - simpl. intros [= ->]. exists [], req, reqs. split; [reflexivity|]. split; [reflexivity|].
    exact Hnet.
Qed.

(** X3 (a rejected fetch aborts the run). Unlike a response with a failure
    status, a [fetch] that rejects ends the run: when [syncEvents] throws,
    the message is that of the rejection of one planned request, every
    planned request before it was handed to [fetch], and none after it. *)
Theorem rejection_aborts_run outlookEvents googleEvents r err r' :
  syncEvents network now accessToken calendarId outlookEvents googleEvents r = (Thrown err, r') ->
  exists done req rest,
    planned accessToken calendarId (indexByUid googleEvents) outlookEvents
    = done ++ req :: rest
    /\ sent r' = sent r ++ done ++ [req]
    /\ network req (after network done (world r)) = (inr err, world r').
Proof.
  intros Hrun.
  destruct (syncEvents_run network now accessToken calendarId outlookEvents googleEvents r)
    as [c Hspec].
  rewrite Hrun in Hspec.
  pose proof (deliver_rejected
                (planned accessToken calendarId (indexByUid googleEvents) outlookEvents)
                (world r)) as Hrej.
  destruct (deliver network _ (world r)) as [[handed rejection] w']. simpl in *.
  destruct rejection as [e|]; [|discriminate]. injection Hspec as -> ->.
  destruct (Hrej e eq_refl) as (done & req & rest & Hplan & -> & Hnet).
  exists done, req, rest. simpl. repeat split; assumption.
Qed.

Lemma requestFor_addressed googleEventsByUid outlookEvents :
  Forall (fun req => authorization req = Some accessToken
                     /\ calendarOf req = Some calendarId
                     /\ (method req = POST \/ method req = PATCH)
                     /\ contentType req = Some ApplicationJson)
         (omap (requestFor accessToken calendarId googleEventsByUid) outlookEvents).
Proof.
  apply Forall_forall. intros req Hreq.
  apply list_elem_of_omap in Hreq as (e & _ & Hreq). unfold requestFor in Hreq.
  destruct (JsMap.get googleEventsByUid (OutlookEvent.uid e)) as [x|].
  - destruct (needsUpdate x e); [|discriminate]. injection Hreq as <-.
    repeat split. right. reflexivity.
  - injection Hreq as <-. repeat split. left. reflexivity.
Qed.

Lemma deletions_addressed (entries : list (string * GoogleEvent.t)) :
  Forall (fun req => authorization req = Some accessToken
                     /\ calendarOf req = Some calendarId
                     /\ method req = DELETE /\ body req = NoBody)
         (map (fun entry => deleteRequest accessToken calendarId (GoogleEvent.id entry.2))
              entries).
Proof.
  apply Forall_forall. intros req Hreq.
  apply (list_elem_of_fmap_1 _ entries) in Hreq as (entry & -> & _). repeat split.
Qed.

(** X4 (order of the mutations). In a run that returns, the requests are
    the creates and updates, one per source event that needs one and in
    source order, followed by the deletes in the order of the map; no delete
    is issued before the last create or update. *)
Theorem mutations_then_deletions outlookEvents googleEvents r res r' :
  syncEvents network now accessToken calendarId outlookEvents googleEvents r = (Returned res, r') ->
  exists upserts deletes,
    sent r' = sent r ++ upserts ++ deletes
    /\ upserts = omap (requestFor accessToken calendarId (indexByUid googleEvents)) outlookEvents
    /\ Forall (fun req => method req = POST \/ method req = PATCH) upserts
    /\ deletes = map (fun entry => deleteRequest accessToken calendarId (GoogleEvent.id entry.2))
                     (disappeared outlookEvents (indexByUid googleEvents))
    /\ Forall (fun req => method req = DELETE) deletes.
Proof.
  intros Hrun. apply syncEvents_returned in Hrun as (_ & Hsent & _).
  eexists _, _. split; [|split; [reflexivity|split; [|split; [reflexivity|]]]].
  - rewrite Hsent. unfold planned. rewrite deletions_planned. reflexivity.
  - eapply Forall_impl; [apply requestFor_addressed|]. simpl. tauto.
  - eapply Forall_impl; [apply deletions_addressed|]. simpl. tauto.
Qed.

(** X5 (what the reconciler talks to). Whatever the network does, every
    request [syncEvents] hands to [fetch] carries the access token it was
    given and addresses the calendar it was given: the collection for a
    POST, one of its items for a PATCH or DELETE. It never reads (no GET)
    and never addresses the token endpoint or the feed. *)
Theorem reconciler_addresses_its_calendar outlookEvents googleEvents r :
  exists issued,
    sent (syncEvents network now accessToken calendarId outlookEvents googleEvents r).2
    = sent r ++ issued
    /\ Forall (fun req =>
                 authorization req = Some accessToken
                 /\ calendarOf req = Some calendarId
                 /\ method req <> GET
                 /\ (method req = POST <-> target req = None)) issued.
Proof.
  destruct (syncEvents_run network now accessToken calendarId outlookEvents googleEvents r)
    as [c ->].
  destruct (deliver_prefix network
              (planned accessToken calendarId (indexByUid googleEvents) outlookEvents)
              (world r)) as [rest Hprefix].
  destruct (deliver network _ (world r)) as [[handed rejection] w']. simpl in *.
  exists handed. split; [reflexivity|].
  assert (Hall : Forall (fun req =>
                 authorization req = Some accessToken
                 /\ calendarOf req = Some calendarId
                 /\ method req <> GET
                 /\ (method req = POST <-> target req = None))
            (planned accessToken calendarId (indexByUid googleEvents) outlookEvents)).
  { unfold planned. rewrite deletions_planned. apply Forall_app. split.
    - apply Forall_forall. intros req Hreq.
      apply list_elem_of_omap in Hreq as (e & _ & Hreq). unfold requestFor in Hreq.
      destruct (JsMap.get (indexByUid googleEvents) (OutlookEvent.uid e)) as [x|].
      + destruct (needsUpdate x e); [|discriminate]. injection Hreq as <-.
        repeat split; discriminate.
      + injection Hreq as <-. repeat split; discriminate.
    - apply Forall_forall. intros req Hreq.
      apply (list_elem_of_fmap_1 _ _) in Hreq as (entry & -> & _).
      repeat split; discriminate. }
  rewrite Hprefix in Hall. apply Forall_app in Hall as [Hhanded _]. exact Hhanded.
Qed.
End WholeRuns.

Lemma counters_by_case_witness :
  let res := {| stats := {| Stats.created := 2; Stats.updated := 0; Stats.deleted := 0;
                            Stats.unchanged := 0 |};
                timestamp := Calendar.now [] |} in
  Stats.created (stats res) = length (List.filter (isAbsent (indexByUid [])) [review; review]).
Proof.
  intros res.
  apply (counters_by_case Calendar.serve Calendar.now "tok" "cal" [review; review] []
           (fresh_run []) res
           (reconcile "tok" "cal" [review; review] []).2).
  reflexivity.
Defined.

Lemma rejection_aborts_run_witness :
  exists done req rest,
    planned "tok" "cal" (indexByUid []) [standup; review] = done ++ req :: rest
    /\ sent (syncEvents unreachable (fun _ => "") "tok" "cal" [standup; review] []
                        (fresh_run tt)).2
       = [] ++ done ++ [req]
    /\ unreachable req (after unreachable done tt) = (inr "network connection lost", tt).
Proof.
  apply (rejection_aborts_run unreachable (fun _ => "") "tok" "cal" [standup; review] []
           (fresh_run tt) "network connection lost"
           (syncEvents unreachable (fun _ => "") "tok" "cal" [standup; review] []
                       (fresh_run tt)).2).
  reflexivity.
Defined.

Lemma mutations_then_deletions_witness :
  exists upserts deletes,
    sent (reconcile "tok" "cal" [review] calendarA).2 = [] ++ upserts ++ deletes
    /\ upserts = omap (requestFor "tok" "cal" (indexByUid calendarA)) [review]
    /\ Forall (fun req => method req = POST \/ method req = PATCH) upserts
    /\ deletes = map (fun entry => deleteRequest "tok" "cal" (GoogleEvent.id entry.2))
                     (disappeared [review] (indexByUid calendarA))
    /\ Forall (fun req => method req = DELETE) deletes.
Proof.
  apply (mutations_then_deletions Calendar.serve Calendar.now "tok" "cal" [review] calendarA
           (fresh_run calendarA)
           {| stats := {| Stats.created := 1; Stats.updated := 0; Stats.deleted := 1;
                          Stats.unchanged := 0 |};
              timestamp := Calendar.now [] |}
           (reconcile "tok" "cal" [review] calendarA).2).
  reflexivity.
Defined.

(** ** The map of destination items, as a function of the snapshot *)

Lemma length_set {V} (m : JsMap.t V) k v : length (JsMap.set m k v) <= S (length m).
Proof.
  induction m as [|[k' v'] m IH]; simpl; [lia|].
  destruct (decide (k' = k)); simpl; lia.
Qed.

Lemma ownedUid_owned x : owned x = false <-> ownedUid x = None.
Proof.
  unfold owned, ownedUid, truthy_opt. destruct (GoogleEvent.outlookSyncUid x) as [uid|].
  - destruct (truthy uid); split; congruence.
  - split; reflexivity.
Qed.

(** X6 (foreign items are invisible to the map). The map built from a
    snapshot is the map built from its items that carry a non-empty
    [outlookSyncUid], in the same order: items without one contribute
    nothing, are the value of no key, and the map has at most as many
    entries as there are items with one. The empty string is never a key. *)
Theorem index_ignores_foreign (googleEvents : list GoogleEvent.t) :
  indexByUid googleEvents = indexByUid (List.filter owned googleEvents)
  /\ length (indexByUid googleEvents) <= length (List.filter owned googleEvents)
  /\ (forall uid x, (uid, x) ∈ indexByUid googleEvents ->
        x ∈ googleEvents /\ GoogleEvent.outlookSyncUid x = Some uid /\ uid <> "")
  /\ JsMap.get (indexByUid googleEvents) "" = None.
Proof.
  split; [|split; [|split]].
  - induction googleEvents as [|x g IH] using rev_ind; [reflexivity|].
    rewrite List.filter_app, indexByUid_snoc. cbn [List.filter].
    destruct (ownedUid x) as [uid|] eqn:Hx.
    + assert (Howned : owned x = true) by (apply owned_ownedUid; eauto).
      rewrite Howned, indexByUid_snoc, Hx, IH. reflexivity.
    + apply ownedUid_owned in Hx. rewrite Hx, app_nil_r. exact IH.
  - induction googleEvents as [|x g IH] using rev_ind; [simpl; lia|].
    rewrite List.filter_app, length_app, indexByUid_snoc. cbn [List.filter].
    destruct (ownedUid x) as [uid|] eqn:Hx.
    + assert (Howned : owned x = true) by (apply owned_ownedUid; eauto).
      rewrite Howned. pose proof (length_set (indexByUid g) uid x). simpl. lia.
    + lia.
  - intros uid x Hentry. apply indexByUid_entry, get_indexByUid_Some in Hentry as [Hx Hux].
    split; [exact Hx|]. apply ownedUid_stored. exact Hux.
  - apply get_indexByUid_absent. intros x _ Hux. apply ownedUid_stored in Hux as [_ Hne].
    congruence.
Qed.

(** X7 (last write wins). Looking a uid up in the map yields the last item
    of the snapshot that carries it, and nothing when no item does; no key
    occurs twice among the entries. *)
Theorem index_last_wins (googleEvents : list GoogleEvent.t) (uid : string) :
  JsMap.get (indexByUid googleEvents) uid
  = last (filter (fun x => ownedUid x = Some uid) googleEvents)
  /\ NoDup (indexByUid googleEvents).*1.
Proof.
  split; [|apply indexByUid_keys_NoDup].
  induction googleEvents as [|x g IH] using rev_ind; [reflexivity|].
  rewrite indexByUid_snoc, filter_app, filter_cons, filter_nil.
  destruct (ownedUid x) as [u|] eqn:Hx.
  - destruct (decide (Some u = Some uid)) as [[= ->]|Hne].
    + rewrite get_set_eq, last_snoc. reflexivity.
    + rewrite get_set_ne by congruence. rewrite app_nil_r. exact IH.
  - rewrite decide_False by discriminate. rewrite app_nil_r. exact IH.
Qed.

(** ** Items whose uid is still in the source *)

Lemma serve_keeps_id req (g : Calendar.t) i :
  i ∈ Calendar.ids g -> (method req = DELETE -> target req <> Some i) ->
  i ∈ Calendar.ids (Calendar.serve req g).2.
Proof.
  unfold Calendar.ids, target, Calendar.serve. intros Hi Hspared.
  apply (list_elem_of_fmap_1 GoogleEvent.id) in Hi as (x & -> & Hx).
  destruct (method req), (url req) as [| |calendarId [params|]|calendarId eventId],
    (body req) as [| |b]; simpl;
    try (apply (list_elem_of_fmap_2 GoogleEvent.id); exact Hx).
  - apply (list_elem_of_fmap_2 GoogleEvent.id), elem_of_app. left. exact Hx.
  - destruct (existsb _ g); simpl; [|apply (list_elem_of_fmap_2 GoogleEvent.id); exact Hx].
    apply (list_elem_of_fmap_2' GoogleEvent.id _
             (if Calendar.has eventId x then Calendar.patch b x else x)).
    + apply (list_elem_of_fmap_2
               (fun y => if Calendar.has eventId y then Calendar.patch b y else y)). exact Hx.
    + destruct (Calendar.has eventId x); reflexivity.
  - destruct (existsb _ g); simpl; [|apply (list_elem_of_fmap_2 GoogleEvent.id); exact Hx].
    apply (list_elem_of_fmap_2 GoogleEvent.id), list_elem_of_filter. split; [|exact Hx].
    apply has_false_iff. intros Heq. apply (Hspared eq_refl). congruence.
  - destruct (existsb _ g); simpl; [|apply (list_elem_of_fmap_2 GoogleEvent.id); exact Hx].
    apply (list_elem_of_fmap_2 GoogleEvent.id), list_elem_of_filter. split; [|exact Hx].
    apply has_false_iff. intros Heq. apply (Hspared eq_refl). congruence.
  - destruct (existsb _ g); simpl; [|apply (list_elem_of_fmap_2 GoogleEvent.id); exact Hx].
    apply (list_elem_of_fmap_2 GoogleEvent.id), list_elem_of_filter. split; [|exact Hx].
    apply has_false_iff. intros Heq. apply (Hspared eq_refl). congruence.
Qed.

Lemma after_keeps_id reqs (g : Calendar.t) i :
  Forall (fun req => method req = DELETE -> target req <> Some i) reqs ->
  i ∈ Calendar.ids g -> i ∈ Calendar.ids (after Calendar.serve reqs g).
Proof.
  revert g. induction reqs as [|req reqs IH]; intros g Hreqs Hi; [exact Hi|].
  apply Forall_cons in Hreqs as [Hreq Hreqs].
  apply IH; [exact Hreqs|]. apply serve_keeps_id; assumption.
Qed.

Lemma planned_spare_seen accessToken calendarId outlookEvents (g : Calendar.t) x uid :
  x ∈ g -> ownedUid x = Some uid -> uid ∈ uids outlookEvents -> NoDup (Calendar.ids g) ->
  Forall (fun req => method req = DELETE -> target req <> Some (GoogleEvent.id x))
         (planned accessToken calendarId (indexByUid g) outlookEvents).
Proof.
  intros Hx Hux Hseen Hids. unfold planned. rewrite deletions_planned. apply Forall_app. split.
  - eapply Forall_impl; [apply requestFor_addressed|]. simpl.
    intros req (_ & _ & [Hm|Hm] & _) Hdel; congruence.
  - apply Forall_forall. intros req Hreq _ Htarget.
    apply (list_elem_of_fmap_1 _ _) in Hreq as ([u y] & -> & Hentry).
    apply list_elem_of_filter in Hentry as [Hgone Hentry].
    apply indexByUid_entry, get_indexByUid_Some in Hentry as [Hy Huy].
    simpl in *. injection Htarget as Hid.
    assert (y = x) as -> by (eapply id_inj_of_NoDup; eassumption).
    apply Hgone. congruence.
Qed.

Section Survival.
Context {W : Type}.
Variable network : Request -> W -> (Response + string) * W.
Variable now : W -> string.
Variable accessToken calendarId : string.

(** X8 (an item still in the source is never deleted). For an item of the
    snapshot whose non-empty uid is the uid of some source event, no DELETE
    of the run addresses its identifier, whatever the network does; in the
    calendar the run acts on, an item with that identifier is still there
    after the run. Identifiers are pairwise distinct. *)
Theorem seen_item_survives outlookEvents (googleEvents : list GoogleEvent.t) (r : Run W) x uid :
  x ∈ googleEvents -> ownedUid x = Some uid -> uid ∈ uids outlookEvents ->
  NoDup (Calendar.ids googleEvents) ->
  (exists issued,
     sent (syncEvents network now accessToken calendarId outlookEvents googleEvents r).2
     = sent r ++ issued
     /\ Forall (fun req => method req = DELETE -> target req <> Some (GoogleEvent.id x)) issued)
  /\ GoogleEvent.id x
     ∈ Calendar.ids (world (reconcile accessToken calendarId outlookEvents googleEvents).2).
Proof.
  intros Hx Hux Hseen Hids.
  pose proof (planned_spare_seen accessToken calendarId outlookEvents googleEvents x uid
                Hx Hux Hseen Hids) as Hspare.
  split.
  - destruct (syncEvents_run network now accessToken calendarId outlookEvents googleEvents r)
      as [c ->].
    destruct (deliver_prefix network
                (planned accessToken calendarId (indexByUid googleEvents) outlookEvents)
                (world r)) as [rest Hprefix].
    destruct (deliver network _ (world r)) as [[handed rejection] w']. simpl in *.
    exists handed. split; [reflexivity|].
    rewrite Hprefix in Hspare. apply Forall_app in Hspare as [Hhanded _]. exact Hhanded.
  - unfold reconcile.
    destruct (syncEvents_answered Calendar.serve Calendar.now accessToken calendarId
                outlookEvents googleEvents (fresh_run googleEvents) serve_answers)
      as (res & r' & Hrun & _ & _ & Hworld).
    rewrite Hrun. simpl. rewrite Hworld. apply after_keeps_id; [exact Hspare|].
    apply (list_elem_of_fmap_2 GoogleEvent.id). exact Hx.
Qed.

(** X9 (a missing field is a change). [hasEventChanged] is false exactly
    when the item has a summary, a description and a location and they are
    those of the desired body. So for an item of the map that lacks one of
    the three, even against an empty string in the source and with equal
    stamps, the loop body issues an update. *)
Theorem missing_field_is_a_change googleEventsByUid e existing stats seenUids r :
  (forall b, hasEventChanged existing b = false <->
             GoogleEvent.summary existing = Some (EventBody.summary b)
             /\ GoogleEvent.description existing = Some (EventBody.description b)
             /\ GoogleEvent.location existing = Some (EventBody.location b))
  /\ (JsMap.get googleEventsByUid (OutlookEvent.uid e) = Some existing ->
      GoogleEvent.summary existing = None
      \/ GoogleEvent.description existing = None
      \/ GoogleEvent.location existing = None ->
      sent (syncOne network accessToken calendarId googleEventsByUid e (stats, seenUids) r).2
      = sent r ++ [updateRequest accessToken calendarId (GoogleEvent.id existing)
                                 (googleEventBody e)]).
Proof.
  split.
  - intros b. unfold hasEventChanged, differs.
    rewrite !orb_false_iff, !negb_false_iff, !bool_decide_eq_true. tauto.
  - intros Hget Hmissing.
    apply (syncOne_update network accessToken calendarId googleEventsByUid
             e existing stats seenUids r Hget).
    apply needsUpdate_iff. right.
    destruct Hmissing as [H|[H|H]]; rewrite H; [left|right; left|right; right]; discriminate.
Qed.
End Survival.

Lemma seen_item_survives_witness :
  (exists issued,
     sent (reconcile "tok" "cal" [standupMoved] calendarA).2 = [] ++ issued
     /\ Forall (fun req => method req = DELETE -> target req <> Some "e1") issued)
  /\ "e1" ∈ Calendar.ids (world (reconcile "tok" "cal" [standupMoved] calendarA).2).
Proof.
  apply (seen_item_survives Calendar.serve Calendar.now "tok" "cal" [standupMoved] calendarA
           (fresh_run calendarA) (stored "e1" standup) "A").
  - apply list_elem_of_further, list_elem_of_here.
  - reflexivity.
  - apply list_elem_of_here.
  - compute_done.
Defined.

Lemma missing_field_is_a_change_witness :
  sent (syncOne Calendar.serve "tok" "cal" (indexByUid [bare]) standup (Stats.zero, ∅)
                (fresh_run [bare])).2
  = [] ++ [updateRequest "tok" "cal" "e1" (googleEventBody standup)].
Proof.
  apply (proj2 (missing_field_is_a_change Calendar.serve "tok" "cal" (indexByUid [bare])
                  standup bare Stats.zero ∅ (fresh_run [bare]))).
  - reflexivity.
  - right. left. reflexivity.
Defined.

(** ** The desired representation *)

(** X10 (what the desired body may hold). The body never carries an empty
    attendee list: it has the source's attendees when there are some and no
    [attendees] property otherwise. An organizer in the body is the
    source's, and has a non-empty email. [start] and [end] are of the same
    kind, both dates or both instants. *)
Theorem desired_body_shape (e : OutlookEvent.t) :
  let b := googleEventBody e in
  EventBody.attendees b <> Some []
  /\ (EventBody.attendees b = None <-> OutlookEvent.attendees e = [])
  /\ (forall a, EventBody.attendees b = Some a -> a = OutlookEvent.attendees e)
  /\ (forall o, EventBody.organizer b = Some o <->
                OutlookEvent.organizer e = Some o /\ Organizer.email o <> "")
  /\ ((exists d, EventBody.start b = date d) <-> (exists d, EventBody.end_ b = date d)).
Proof.
  unfold googleEventBody; simpl. split; [|split; [|split; [|split]]].
  - destruct (OutlookEvent.attendees e); simpl; discriminate.
  - destruct (OutlookEvent.attendees e); simpl; split; congruence.
  - intros a. destruct (OutlookEvent.attendees e); simpl; congruence.
  - intros o. destruct (OutlookEvent.organizer e) as [o'|].
    + unfold truthy. destruct (String.eqb_spec (Organizer.email o') "") as [Heq|Hne]; simpl.
      * split; [discriminate | intros [[= ->] Hne]; contradiction].
      * split; [intros [= ->]; auto | intros [[= ->] _]; reflexivity].
    + split; [discriminate | intros [[=] _]].
  - destruct (OutlookEvent.isAllDay e); split; intros [d Hd]; eauto; discriminate.
Qed.

(** ** The orchestrator *)

Section Orchestrator.
Context {W : Type}.
Variable network : Request -> W -> (Response + string) * W.
Variable now windowMin windowMax : W -> string.
Variable json_access_token : string -> option string.
Variable json_items : string -> option (list GoogleEvent.t).
Variable parseICS : string -> option (list OutlookEvent.t).
Variable env : Env.

Lemma fetch_run req (r : Run W) :
  fetch network req r
  = match network req (world r) with
    | (inl response, w') =>
        (Returned response, {| world := w'; sent := sent r ++ [req]; console := console r |})
    | (inr e, w') =>
        (Thrown e, {| world := w'; sent := sent r ++ [req]; console := console r |})
    end.
Proof. unfold fetch. destruct (network req (world r)) as [[response|e] w']; reflexivity. Qed.

Lemma getGoogleAccessToken_run (r : Run W) :
  getGoogleAccessToken network json_access_token (GOOGLE_CLIENT_ID env)
                       (GOOGLE_CLIENT_SECRET env) (GOOGLE_REFRESH_TOKEN env) r
  = match network (tokenRequest env) (world r) with
    | (inl response, w') =>
        (if negb (ok response)
         then Thrown ("Failed to get access token: " ++ text response)%string
         else match json_access_token (text response) with
              | Some accessToken => Returned accessToken
              | None => Thrown "Unexpected token in JSON"
              end,
         {| world := w'; sent := sent r ++ [tokenRequest env]; console := console r |})
    | (inr e, w') =>
        (Thrown e,
         {| world := w'; sent := sent r ++ [tokenRequest env]; console := console r |})
    end.
Proof.
  unfold getGoogleAccessToken, bind. fold (tokenRequest env). rewrite fetch_run.
  destruct (network (tokenRequest env) (world r)) as [[response|e] w']; [|reflexivity].
  destruct (negb (ok response)); [reflexivity|].
  destruct (json_access_token (text response)); reflexivity.
Qed.

Lemma getGoogleCalendarEvents_run accessToken (r : Run W) :
  let listing := listRequest accessToken env (windowMin (world r)) (windowMax (world r)) in
  getGoogleCalendarEvents network windowMin windowMax json_items accessToken
                          (GOOGLE_CALENDAR_ID env) r
  = match network listing (world r) with
    | (inl response, w') =>
        (if negb (ok response)
         then Thrown ("Failed to get Google events: " ++ text response)%string
         else match json_items (text response) with
              | Some items => Returned items
              | None => Thrown "Unexpected token in JSON"
              end,
         {| world := w'; sent := sent r ++ [listing]; console := console r |})
    | (inr e, w') =>
        (Thrown e, {| world := w'; sent := sent r ++ [listing]; console := console r |})
    end.
Proof.
  intros listing. unfold getGoogleCalendarEvents, bind, read. simpl.
  fold (listRequest accessToken env (windowMin (world r)) (windowMax (world r))). fold listing.
  rewrite fetch_run.
  destruct (network listing (world r)) as [[response|e] w']; [|reflexivity].
  destruct (negb (ok response)); [reflexivity|].
  destruct (json_items (text response)); reflexivity.
Qed.

(** The run of [syncCalendars], step by step. *)
Lemma syncCalendars_run (r : Run W) :
  syncCalendars network now windowMin windowMax json_access_token json_items parseICS env r
  = let r0 := {| world := world r; sent := sent r;
                 console := console r ++ [(Info, Starting)] |} in
    match getGoogleAccessToken network json_access_token (GOOGLE_CLIENT_ID env)
                               (GOOGLE_CLIENT_SECRET env) (GOOGLE_REFRESH_TOKEN env) r0 with
    | (Thrown e, r1) => (Thrown e, r1)
    | (Returned accessToken, r1) =>
        let r1' := {| world := world r1; sent := sent r1;
                      console := console r1 ++ [(Info, GotAccessToken)] |} in
        match network (feedRequest env) (world r1) with
        | (inr e, w2) =>
            (Thrown e, {| world := w2; sent := sent r1 ++ [feedRequest env];
                          console := console r1' |})
        | (inl icsResponse, w2) =>
            if negb (ok icsResponse)
            then (Thrown ("Failed to fetch ICS: " ++ decimal (status icsResponse))%string,
                  {| world := w2; sent := sent r1 ++ [feedRequest env];
                     console := console r1'
                                ++ [(Error, FailedToFetchICS (status icsResponse))] |})
            else
              let r2 := {| world := w2; sent := sent r1 ++ [feedRequest env];
                           console := console r1' ++ [(Info, FetchedICS)] |} in
              match parseICS (text icsResponse) with
              | None => (Thrown "invalid ical body", r2)
              | Some outlookEvents =>
                  let r2' := {| world := w2; sent := sent r2;
                                console := console r2
                                           ++ [(Info, Parsed (length outlookEvents))] |} in
                  match getGoogleCalendarEvents network windowMin windowMax json_items
                                                accessToken (GOOGLE_CALENDAR_ID env) r2' with
                  | (Thrown e, r3) => (Thrown e, r3)
                  | (Returned googleEvents, r3) =>
                      let r3' := {| world := world r3; sent := sent r3;
                                    console := console r3
                                               ++ [(Info, FoundExisting (length googleEvents))] |} in
                      match syncEvents network now accessToken (GOOGLE_CALENDAR_ID env)
                                       outlookEvents googleEvents r3' with
                      | (Thrown e, r4) => (Thrown e, r4)
                      | (Returned result, r4) =>
                          (Returned result,
                           {| world := world r4; sent := sent r4;
                              console := console r4 ++ [(Info, Completed (stats result))] |})
                      end
                  end
              end
        end
    end.
Proof.
  unfold syncCalendars, bind at 1 2 3 4. unfold console_log at 1. cbn zeta.
  destruct (getGoogleAccessToken _ _ _ _ _ _) as [[accessToken|e] r1]; [|reflexivity].
  unfold console_log at 1. cbn beta iota. fold (feedRequest env). rewrite fetch_run. simpl.
  destruct (network (feedRequest env) (world r1)) as [[icsResponse|e] w2]; [|reflexivity].
  destruct (negb (ok icsResponse)); [reflexivity|].
  unfold bind, console_log, lift_option, ret, throw. simpl.
  destruct (parseICS (text icsResponse)) as [outlookEvents|]; [|reflexivity]. simpl.
  destruct (getGoogleCalendarEvents _ _ _ _ _ _ _) as [[googleEvents|e] r3]; [|reflexivity].
  simpl.
  destruct (syncEvents _ _ _ _ _ _ _) as [[result|e] r4]; reflexivity.
Qed.
Lemma syncEvents_issued accessToken calendarId outlookEvents googleEvents (r : Run W) :
  exists issued,
    sent (syncEvents network now accessToken calendarId outlookEvents googleEvents r).2
    = sent r ++ issued
    /\ Forall (fun req => method req <> GET /\ calendarOf req = Some calendarId) issued.
Proof.
  destruct (syncEvents_run network now accessToken calendarId outlookEvents googleEvents r)
    as [c ->].
  destruct (deliver_prefix network
              (planned accessToken calendarId (indexByUid googleEvents) outlookEvents)
              (world r)) as [rest Hprefix].
  destruct (deliver network _ (world r)) as [[handed rejection] w']. simpl in *.
  exists handed. split; [reflexivity|].
  assert (Hall : Forall (fun req => method req <> GET /\ calendarOf req = Some calendarId)
            (planned accessToken calendarId (indexByUid googleEvents) outlookEvents)).
  { unfold planned. rewrite deletions_planned. apply Forall_app. split.
    - eapply Forall_impl; [apply requestFor_addressed|]. simpl.
      intros req (_ & Hcal & [Hm|Hm] & _); rewrite Hm; split; [discriminate|exact Hcal
                                                              |discriminate|exact Hcal].
    - eapply Forall_impl; [apply deletions_addressed|]. simpl.
      intros req (_ & Hcal & Hm & _). rewrite Hm. split; [discriminate|exact Hcal]. }
  rewrite Hprefix in Hall. apply Forall_app in Hall as [Hhanded _]. exact Hhanded.
Qed.

(** X13 (a failed credential refresh is fatal). When the token endpoint
    answers with a status outside 200-299, [syncCalendars] throws "Failed to
    get access token: " followed by the text of the response; the token
    request is the only request it made, and it logged only its start. *)
Theorem credential_failure_is_fatal (r : Run W) response w1 :
  network (tokenRequest env) (world r) = (inl response, w1) ->
  ok response = false ->
  syncCalendars network now windowMin windowMax json_access_token json_items parseICS env r
  = (Thrown ("Failed to get access token: " ++ text response)%string,
     {| world := w1;
        sent := sent r ++ [tokenRequest env];
        console := console r ++ [(Info, Starting)] |}).
Proof.
  intros Hnet Hok. rewrite syncCalendars_run. cbn zeta.
  rewrite getGoogleAccessToken_run. simpl. rewrite Hnet, Hok. reflexivity.
Qed.

(** X14 (a failed feed fetch is fatal). With a token obtained, when the
    feed answers with a status outside 200-299, [syncCalendars] logs the
    failure and throws "Failed to fetch ICS: " followed by the status in
    decimal; it made two requests, the token request and the GET of the
    feed URL, the latter without the token, and none to the calendar. *)
Theorem feed_failure_is_fatal (r : Run W) response1 w1 accessToken response2 w2 :
  network (tokenRequest env) (world r) = (inl response1, w1) ->
  ok response1 = true ->
  json_access_token (text response1) = Some accessToken ->
  network (feedRequest env) w1 = (inl response2, w2) ->
  ok response2 = false ->
  syncCalendars network now windowMin windowMax json_access_token json_items parseICS env r
  = (Thrown ("Failed to fetch ICS: " ++ decimal (status response2))%string,
     {| world := w2;
        sent := sent r ++ [tokenRequest env; feedRequest env];
        console := console r ++ [(Info, Starting); (Info, GotAccessToken);
                                 (Error, FailedToFetchICS (status response2))] |})
  /\ authorization (feedRequest env) = None
  /\ url (feedRequest env) = FeedUrl (OUTLOOK_ICS_URL env).
Proof.
  intros Hnet1 Hok1 Htoken Hnet2 Hok2. split; [|split; reflexivity].
  rewrite syncCalendars_run. cbn zeta.
  rewrite getGoogleAccessToken_run. simpl. rewrite Hnet1, Hok1. simpl. rewrite Htoken.
  simpl. rewrite Hnet2, Hok2. simpl. rewrite <- !app_assoc. reflexivity.
Qed.

(** X15 (a failed listing is fatal). With the token obtained and the feed
    fetched and parsed, when the listing of the calendar answers with a
    status outside 200-299, [syncCalendars] throws "Failed to get Google
    events: " followed by the text of the response; the listing asks for at
    most 2500 items, recurring events unexpanded, between the two bounds
    read from the clock; nothing was written to the calendar. *)
Theorem listing_failure_is_fatal (r : Run W) response1 w1 accessToken response2 w2
    outlookEvents response3 w3 :
  network (tokenRequest env) (world r) = (inl response1, w1) ->
  ok response1 = true ->
  json_access_token (text response1) = Some accessToken ->
  network (feedRequest env) w1 = (inl response2, w2) ->
  ok response2 = true ->
  parseICS (text response2) = Some outlookEvents ->
  let listing := listRequest accessToken env (windowMin w2) (windowMax w2) in
  network listing w2 = (inl response3, w3) ->
  ok response3 = false ->
  syncCalendars network now windowMin windowMax json_access_token json_items parseICS env r
  = (Thrown ("Failed to get Google events: " ++ text response3)%string,
     {| world := w3;
        sent := sent r ++ [tokenRequest env; feedRequest env; listing];
        console := console r ++ [(Info, Starting); (Info, GotAccessToken); (Info, FetchedICS);
                                 (Info, Parsed (length outlookEvents))] |})
  /\ method listing = GET
  /\ url listing = EventsUrl (GOOGLE_CALENDAR_ID env)
                          (Some {| timeMin := windowMin w2; timeMax := windowMax w2;
                                   maxResults := "2500"; singleEvents := "false" |}).
Proof.
  intros Hnet1 Hok1 Htoken Hnet2 Hok2 Hparse listing Hnet3 Hok3. split; [|split; reflexivity].
  rewrite syncCalendars_run. cbn zeta.
  rewrite getGoogleAccessToken_run. simpl. rewrite Hnet1, Hok1. simpl. rewrite Htoken.
  simpl. rewrite Hnet2, Hok2. simpl. rewrite Hparse.
  rewrite getGoogleCalendarEvents_run. simpl. fold listing. rewrite Hnet3, Hok3. simpl.
  rewrite <- !app_assoc. reflexivity.
Qed.

(** X16 (a whole sync). When the token endpoint, the feed and the listing
    answer with success and decode, and every later request is answered,
    [syncCalendars] returns the result of reconciling the parsed events
    against the listed items: its requests are the token request, the feed
    request, the listing, then the planned mutations, all of these carrying
    the token obtained; its last log line reports the counters. *)
Theorem whole_sync (r : Run W) response1 w1 accessToken response2 w2
    outlookEvents response3 w3 googleEvents :
  network (tokenRequest env) (world r) = (inl response1, w1) ->
  ok response1 = true ->
  json_access_token (text response1) = Some accessToken ->
  network (feedRequest env) w1 = (inl response2, w2) ->
  ok response2 = true ->
  parseICS (text response2) = Some outlookEvents ->
  let listing := listRequest accessToken env (windowMin w2) (windowMax w2) in
  network listing w2 = (inl response3, w3) ->
  ok response3 = true ->
  json_items (text response3) = Some googleEvents ->
  answers network ->
  let reqs := planned accessToken (GOOGLE_CALENDAR_ID env) (indexByUid googleEvents)
                      outlookEvents in
  exists res r',
    syncCalendars network now windowMin windowMax json_access_token json_items parseICS env r
    = (Returned res, r')
    /\ stats res = plannedStats (indexByUid googleEvents) outlookEvents
    /\ sent r' = sent r ++ [tokenRequest env; feedRequest env; listing] ++ reqs
    /\ world r' = after network reqs w3
    /\ last (console r') = Some (Info, Completed (stats res)).
Proof.
  intros Hnet1 Hok1 Htoken Hnet2 Hok2 Hparse listing Hnet3 Hok3 Hitems Hanswers reqs.
  rewrite syncCalendars_run. cbn zeta.
  rewrite getGoogleAccessToken_run. simpl. rewrite Hnet1, Hok1. simpl. rewrite Htoken.
  simpl. rewrite Hnet2, Hok2. simpl. rewrite Hparse.
  rewrite getGoogleCalendarEvents_run. simpl. fold listing. rewrite Hnet3, Hok3. simpl.
  rewrite Hitems.
  match goal with
  | |- context [syncEvents network now accessToken (GOOGLE_CALENDAR_ID env)
                           outlookEvents googleEvents ?r3] =>
      destruct (syncEvents_answered network now accessToken (GOOGLE_CALENDAR_ID env)
                  outlookEvents googleEvents r3 Hanswers)
        as (res & r4 & Hrun & Hstats & Hsent & Hworld)
  end.
  rewrite Hrun. eexists _, _. split; [reflexivity|]. simpl in *.
  split; [exact Hstats|]. split; [|split].
  - rewrite Hsent. fold reqs. rewrite <- !app_assoc. reflexivity.
  - exact Hworld.
  - apply last_snoc.
Qed.

(** X17 (nothing is written before both snapshots are read). Whatever the
    network answers or rejects and whatever the decoders do, the requests of
    [syncCalendars] are an initial part of: the token request, the feed
    request, the listing; followed, only when all three were made, by
    requests that are not GETs and address the configured calendar. *)
Theorem reads_before_writes (r : Run W) :
  exists reads writes,
    sent (syncCalendars network now windowMin windowMax json_access_token json_items
                        parseICS env r).2
    = sent r ++ reads ++ writes
    /\ (reads = [tokenRequest env]
        \/ reads = [tokenRequest env; feedRequest env]
        \/ exists accessToken timeMin timeMax,
             reads = [tokenRequest env; feedRequest env;
                      listRequest accessToken env timeMin timeMax])
    /\ (writes <> [] -> length reads = 3)
    /\ Forall (fun req => method req <> GET
                          /\ calendarOf req = Some (GOOGLE_CALENDAR_ID env)) writes.
Proof.
  rewrite syncCalendars_run. cbn zeta. rewrite getGoogleAccessToken_run. simpl.
  pose (one := [tokenRequest env]).
  pose (two := [tokenRequest env; feedRequest env]).
  assert (Hone : exists reads writes : list Request,
             sent r ++ [tokenRequest env] = sent r ++ reads ++ writes
             /\ (reads = [tokenRequest env]
                 \/ reads = [tokenRequest env; feedRequest env]
                 \/ exists accessToken timeMin timeMax,
                      reads = [tokenRequest env; feedRequest env;
                               listRequest accessToken env timeMin timeMax])
             /\ (writes <> [] -> length reads = 3)
             /\ Forall (fun req => method req <> GET
                                   /\ calendarOf req = Some (GOOGLE_CALENDAR_ID env)) writes).
  { exists one, (@nil Request). rewrite app_nil_r. repeat split; auto. tauto. }
  assert (Htwo : exists reads writes : list Request,
             (sent r ++ [tokenRequest env]) ++ [feedRequest env] = sent r ++ reads ++ writes
             /\ (reads = [tokenRequest env]
                 \/ reads = [tokenRequest env; feedRequest env]
                 \/ exists accessToken timeMin timeMax,
                      reads = [tokenRequest env; feedRequest env;
                               listRequest accessToken env timeMin timeMax])
             /\ (writes <> [] -> length reads = 3)
             /\ Forall (fun req => method req <> GET
                                   /\ calendarOf req = Some (GOOGLE_CALENDAR_ID env)) writes).
  { exists two, (@nil Request). rewrite app_nil_r, <- app_assoc. repeat split; auto. tauto. }
  destruct (network (tokenRequest env) (world r)) as [[response1|e1] w1]; [|exact Hone].
  destruct (negb (ok response1)); [exact Hone|].
  destruct (json_access_token (text response1)) as [accessToken|]; [|exact Hone].
  simpl.
  destruct (network (feedRequest env) w1) as [[response2|e2] w2]; [|exact Htwo].
  destruct (negb (ok response2)); [exact Htwo|].
  destruct (parseICS (text response2)) as [outlookEvents|]; [|exact Htwo].
  rewrite getGoogleCalendarEvents_run. simpl.
  set (listing := listRequest accessToken env (windowMin w2) (windowMax w2)).
  pose (three := [tokenRequest env; feedRequest env; listing]).
  assert (Hthree : forall writes : list Request,
             Forall (fun req => method req <> GET
                                /\ calendarOf req = Some (GOOGLE_CALENDAR_ID env)) writes ->
             exists reads writes' : list Request,
               (((sent r ++ [tokenRequest env]) ++ [feedRequest env]) ++ [listing]) ++ writes
               = sent r ++ reads ++ writes'
               /\ (reads = [tokenRequest env]
                   \/ reads = [tokenRequest env; feedRequest env]
                   \/ exists accessToken timeMin timeMax,
                        reads = [tokenRequest env; feedRequest env;
                                 listRequest accessToken env timeMin timeMax])
               /\ (writes' <> [] -> length reads = 3)
               /\ Forall (fun req => method req <> GET
                                     /\ calendarOf req = Some (GOOGLE_CALENDAR_ID env)) writes').
  { intros writes Hwrites. exists three, writes. rewrite <- !app_assoc.
    split; [reflexivity|]. split; [right; right; eauto|]. split; [reflexivity|exact Hwrites]. }
  assert (Hnone := Hthree [] (Forall_nil_2 _)). rewrite app_nil_r in Hnone.
  destruct (network listing w2) as [[response3|e3] w3]; [|exact Hnone].
  destruct (negb (ok response3)); [exact Hnone|].
  destruct (json_items (text response3)) as [googleEvents|]; [|exact Hnone].
  simpl.
  match goal with
  | |- context [syncEvents network now accessToken (GOOGLE_CALENDAR_ID env)
                           outlookEvents googleEvents ?r3] =>
      destruct (syncEvents_issued accessToken (GOOGLE_CALENDAR_ID env)
                  outlookEvents googleEvents r3) as (issued & Hsent & Hall);
      destruct (syncEvents network now accessToken (GOOGLE_CALENDAR_ID env)
                           outlookEvents googleEvents r3) as [[result|e4] r4]
  end; simpl in *; rewrite Hsent; apply Hthree; exact Hall.
Qed.
End Orchestrator.

Lemma service_answers : answers service.
Proof.
  intros req g. unfold service.
  destruct (url req) as [| |calendarId [params|]|calendarId eventId] eqn:Hurl;
    try (eexists _, _; reflexivity); apply serve_answers.
Qed.

Lemma credential_failure_is_fatal_witness :
  syncCalendars refusing (fun _ => "") (fun _ => "") (fun _ => "")
                decodeToken (decodeItems []) (decodeFeed []) envWithSecret (fresh_run tt)
  = (Thrown "Failed to get access token: Internal Server Error",
     {| world := tt; sent := [] ++ [tokenRequest envWithSecret];
        console := [] ++ [(Info, Starting)] |}).
Proof.
  apply (credential_failure_is_fatal refusing (fun _ => "") (fun _ => "") (fun _ => "")
           decodeToken (decodeItems []) (decodeFeed []) envWithSecret (fresh_run tt)
           {| status := 500; text := "Internal Server Error" |} tt);
    reflexivity.
Defined.

Lemma feed_failure_is_fatal_witness :
  sync feedDown [standup] calendarA
  = (Thrown "Failed to fetch ICS: 503",
     {| world := calendarA;
        sent := [] ++ [tokenRequest envWithSecret; feedRequest envWithSecret];
        console := [] ++ [(Info, Starting); (Info, GotAccessToken);
                          (Error, FailedToFetchICS 503)] |}).
Proof.
  apply (feed_failure_is_fatal feedDown Calendar.now Calendar.now Calendar.now
           decodeToken (decodeItems calendarA) (decodeFeed [standup]) envWithSecret
           (fresh_run calendarA)
           {| status := 200; text := "{access_token}" |} calendarA "tok"
           {| status := 503; text := "Service Unavailable" |} calendarA);
    reflexivity.
Defined.

Lemma listing_failure_is_fatal_witness :
  sync calendarDown [standup] calendarA
  = (Thrown "Failed to get Google events: Backend Error",
     {| world := calendarA;
        sent := [] ++ [tokenRequest envWithSecret; feedRequest envWithSecret;
                       listRequest "tok" envWithSecret (Calendar.now calendarA)
                                   (Calendar.now calendarA)];
        console := [] ++ [(Info, Starting); (Info, GotAccessToken); (Info, FetchedICS);
                          (Info, Parsed 1)] |}).
Proof.
  apply (listing_failure_is_fatal calendarDown Calendar.now Calendar.now Calendar.now
           decodeToken (decodeItems calendarA) (decodeFeed [standup]) envWithSecret
           (fresh_run calendarA)
           {| status := 200; text := "{access_token}" |} calendarA "tok"
           {| status := 200; text := "BEGIN:VCALENDAR" |} calendarA [standup]
           {| status := 500; text := "Backend Error" |} calendarA);
    reflexivity.
Defined.

Lemma whole_sync_witness :
  exists res r',
    sync service [standupMoved; review] calendarA = (Returned res, r')
    /\ stats res = plannedStats (indexByUid calendarA) [standupMoved; review]
    /\ sent r' = [] ++ [tokenRequest envWithSecret; feedRequest envWithSecret;
                        listRequest "tok" envWithSecret (Calendar.now calendarA)
                                    (Calendar.now calendarA)]
                    ++ planned "tok" "cal" (indexByUid calendarA) [standupMoved; review]
    /\ world r' = after service (planned "tok" "cal" (indexByUid calendarA)
                                         [standupMoved; review]) calendarA
    /\ last (console r') = Some (Info, Completed (stats res)).
Proof.
  apply (whole_sync service Calendar.now Calendar.now Calendar.now
           decodeToken (decodeItems calendarA) (decodeFeed [standupMoved; review])
           envWithSecret (fresh_run calendarA)
           {| status := 200; text := "{access_token}" |} calendarA "tok"
           {| status := 200; text := "BEGIN:VCALENDAR" |} calendarA [standupMoved; review]
           {| status := 200; text := "{items}" |} calendarA calendarA);
    try reflexivity.
  exact service_answers.
Defined.

(** ** The HTTP entry point, beyond the rejections *)

Section Trigger.
Context {W : Type}.
Variable network : Request -> W -> (Response + string) * W.
Variable now windowMin windowMax : W -> string.
Variable json_access_token : string -> option string.
Variable json_items : string -> option (list GoogleEvent.t).
Variable parseICS : string -> option (list OutlookEvent.t).

Lemma worker_fetch_accepts request env (r : Run W) :
  pathname request = "/sync" ->
  truthy_opt (SYNC_TOKEN env) = true ->
  or_else (header_X_Sync_Token request) (searchParams_token request) = SYNC_TOKEN env ->
  worker_fetch network now windowMin windowMax json_access_token json_items parseICS
               request env r
  = triggerReply (syncCalendars network now windowMin windowMax json_access_token
                                json_items parseICS env r).
Proof.
  intros Hpath Hsecret Htoken. unfold worker_fetch.
  rewrite bool_decide_eq_true_2 by exact Hpath.
  rewrite Hsecret, (bool_decide_eq_true_2 _ Htoken). simpl.
  unfold try_catch, bind, triggerReply.
  destruct (syncCalendars _ _ _ _ _ _ _ _ _) as [[result|message] r']; reflexivity.
Qed.

(** X18 (the handler always replies). Whatever the request, the
    environment and the network, [fetch] returns a response and never
    throws; its status is 200, 401, 404 or 500. A 500 means the sync threw:
    the message is logged, and the body is the fixed JSON error "Sync
    failed", whatever the message. A 200 carries the result the sync
    returned. *)
Theorem handler_always_replies request env (r : Run W) :
  exists reply r',
    worker_fetch network now windowMin windowMax json_access_token json_items parseICS
                 request env r = (Returned reply, r')
    /\ (reply_status reply = 200 \/ reply_status reply = 401
        \/ reply_status reply = 404 \/ reply_status reply = 500)
    /\ (reply_status reply = 500 ->
        reply_body reply = ErrorJson "Sync failed"
        /\ exists message,
             (syncCalendars network now windowMin windowMax json_access_token json_items
                            parseICS env r).1 = Thrown message
             /\ last (console r') = Some (Error, SyncError message))
    /\ (reply_status reply = 200 ->
        exists result,
          reply_body reply = ResultJson result
          /\ syncCalendars network now windowMin windowMax json_access_token json_items
                           parseICS env r = (Returned result, r')).
Proof.
  destruct (decide (pathname request = "/sync")) as [Hpath|Hpath].
  - destruct (truthy_opt (SYNC_TOKEN env)) eqn:Hsecret.
    + destruct (decide (or_else (header_X_Sync_Token request) (searchParams_token request)
                        = SYNC_TOKEN env)) as [Htoken|Htoken].
      * rewrite (worker_fetch_accepts request env r Hpath Hsecret Htoken).
        destruct (syncCalendars _ _ _ _ _ _ _ _ _) as [[result|message] r']; simpl.
        -- eexists _, _. split; [reflexivity|]. simpl. split; [auto|].
           split; [discriminate|]. intros _. exists result. split; reflexivity.
        -- eexists _, _. split; [reflexivity|]. simpl. split; [auto|].
           split; [|discriminate]. intros _. split; [reflexivity|].
           exists message. split; [reflexivity | apply last_snoc].
      * rewrite (worker_fetch_rejects network now windowMin windowMax json_access_token
                   json_items parseICS request env r Hpath (or_intror Htoken)).
        eexists _, _. split; [reflexivity|]. simpl. split; [auto|]. split; discriminate.
    + rewrite (worker_fetch_rejects network now windowMin windowMax json_access_token
                 json_items parseICS request env r Hpath (or_introl Hsecret)).
      eexists _, _. split; [reflexivity|]. simpl. split; [auto|]. split; discriminate.
  - rewrite (worker_fetch_unknown network now windowMin windowMax json_access_token
               json_items parseICS request env r Hpath).
    eexists _, _. split; [reflexivity|]. simpl. split; [auto|]. split; discriminate.
Qed.

(** X19 (which token counts). With a non-empty secret configured, a request
    to /sync is judged on its [X-Sync-Token] header when that is non-empty,
    and on its [token] query parameter only when the header is missing or
    empty: the right header starts the sync whatever the parameter, a wrong
    non-empty header is refused even beside the right parameter, and without
    a header the parameter decides. *)
Theorem trigger_token_rule request env (r : Run W) secret :
  pathname request = "/sync" ->
  SYNC_TOKEN env = Some secret ->
  secret <> "" ->
  let sync := syncCalendars network now windowMin windowMax json_access_token json_items
                            parseICS env r in
  let reply := worker_fetch network now windowMin windowMax json_access_token json_items
                            parseICS request env r in
  (header_X_Sync_Token request = Some secret -> reply = triggerReply sync)
  /\ (forall h, header_X_Sync_Token request = Some h -> h <> "" -> h <> secret ->
        reply = (Returned unauthorized, r))
  /\ (header_X_Sync_Token request = None \/ header_X_Sync_Token request = Some "" ->
      (searchParams_token request = Some secret -> reply = triggerReply sync)
      /\ (searchParams_token request <> Some secret -> reply = (Returned unauthorized, r))).
Proof.
  intros Hpath Hsecret Hne sync reply.
  assert (Htruthy : truthy secret = true).
  { unfold truthy. destruct (String.eqb_spec secret ""); [contradiction|reflexivity]. }
  assert (Hconfigured : truthy_opt (SYNC_TOKEN env) = true) by (rewrite Hsecret; exact Htruthy).
  split; [|split].
  - intros Hheader. apply worker_fetch_accepts; [exact Hpath | exact Hconfigured |].
    unfold or_else. rewrite Hheader. simpl. rewrite Htruthy. congruence.
  - intros h Hheader Hh Hwrong. apply worker_fetch_rejects; [exact Hpath|]. right.
    unfold or_else. rewrite Hheader. simpl.
    replace (truthy h) with true
      by (unfold truthy; destruct (String.eqb_spec h ""); [contradiction|reflexivity]).
    congruence.
  - intros Hheader.
    assert (Heffective : or_else (header_X_Sync_Token request) (searchParams_token request)
                         = searchParams_token request).
    { unfold or_else. destruct Hheader as [-> | ->]; reflexivity. }
    split.
    + intros Hquery. apply worker_fetch_accepts; [exact Hpath | exact Hconfigured |].
      rewrite Heffective. congruence.
    + intros Hquery. apply worker_fetch_rejects; [exact Hpath|]. right.
      rewrite Heffective. congruence.
Qed.
End Trigger.

Lemma trigger_token_rule_witness :
  worker_fetch service Calendar.now Calendar.now Calendar.now
               decodeToken (decodeItems calendarA) (decodeFeed [standup])
               (syncWithHeader "guess" (Some "s3cret")) envWithSecret (fresh_run calendarA)
  = (Returned unauthorized, fresh_run calendarA).
Proof.
  apply (proj1 (proj2 (trigger_token_rule service Calendar.now Calendar.now Calendar.now
                         decodeToken (decodeItems calendarA) (decodeFeed [standup])
                         (syncWithHeader "guess" (Some "s3cret")) envWithSecret
                         (fresh_run calendarA) "s3cret" eq_refl eq_refl
                         ltac:(discriminate))) "guess" eq_refl);
    discriminate.
Defined.

(** ** Parsing the feed *)

Lemma truthy_iff s : truthy s = true <-> s <> "".
Proof. unfold truthy. destruct (String.eqb_spec s ""); simpl; split; congruence. Qed.

Lemma or_default_truthy a b : b <> "" -> or_default a b <> "".
Proof.
  intros Hb. unfold or_default. destruct a as [s|]; [|exact Hb].
  destruct (truthy s) eqn:Hs; [apply truthy_iff, Hs | exact Hb].
Qed.

(** X20 (the range of [mapResponseStatus]). A PARTSTAT that is not the name
    of a member every object inherits is mapped to one of accepted,
    declined, tentative, needsAction, and to needsAction unless it is
    exactly ACCEPTED, DECLINED or TENTATIVE; one that is such a name
    ("constructor", "toString", ...) is not mapped to a string at all: the
    lookup finds the inherited member, and that is returned. *)
Theorem response_status_range (partstat : string) :
  (partstat ∉ inheritedNames ->
   mapResponseStatus partstat
   ∈ [Text "accepted"; Text "declined"; Text "tentative"; Text "needsAction"])
  /\ (partstat ∉ inheritedNames ->
      partstat <> "ACCEPTED" -> partstat <> "DECLINED" -> partstat <> "TENTATIVE" ->
      mapResponseStatus partstat = Text "needsAction")
  /\ (partstat ∈ inheritedNames -> mapResponseStatus partstat = Inherited partstat).
Proof.
  unfold mapResponseStatus. split; [|split].
  - intros Hown. rewrite (bool_decide_eq_false_2 _ Hown).
    repeat case_decide; set_unfold; tauto.
  - intros Hown Ha Hd Ht. rewrite (bool_decide_eq_false_2 _ Hown).
    repeat case_decide; congruence.
  - intros Hin. rewrite (bool_decide_eq_true_2 _ Hin).
    unfold inheritedNames in Hin.
    repeat (apply elem_of_cons in Hin as [->|Hin]; [reflexivity|]).
    apply elem_of_nil in Hin. contradiction.
Qed.

Lemma response_status_range_witness :
  mapResponseStatus "DELEGATED" = Text "needsAction".
Proof.
  apply (proj1 (proj2 (response_status_range "DELEGATED"))); [compute_done | discriminate..].
Defined.

Lemma remove_first_eq pattern s :
  remove_first pattern s
  = match strip_prefix pattern s with
    | Some rest => rest
    | None =>
        match s with
        | EmptyString => EmptyString
        | String c s' => String c (remove_first pattern s')
        end
    end.
Proof. destruct s; reflexivity. Qed.

Lemma strip_prefix_app p s : strip_prefix p (p ++ s)%string = Some s.
Proof.
  induction p as [|c p IH]; simpl; [destruct s; reflexivity|].
  rewrite Ascii.eqb_refl. exact IH.
Qed.

Lemma strip_prefix_Some p s rest : strip_prefix p s = Some rest -> s = (p ++ rest)%string.
Proof.
  revert s. induction p as [|c p IH]; intros s; simpl.
  - destruct s; intros [= <-]; reflexivity.
  - destruct s as [|d s]; [discriminate|].
    destruct (Ascii.eqb_spec c d) as [->|]; [|discriminate].
    intros H. apply IH in H. subst s. reflexivity.
Qed.

Lemma remove_first_absent p s :
  (forall a b, s <> (a ++ p ++ b)%string) -> remove_first p s = s.
Proof.
  induction s as [|c s IH]; intros Habsent; rewrite remove_first_eq.
  - destruct (strip_prefix p "") as [rest|] eqn:Hp; [|reflexivity].
    apply strip_prefix_Some in Hp. exfalso. exact (Habsent "" rest Hp).
  - destruct (strip_prefix p (String c s)) as [rest|] eqn:Hp.
    + apply strip_prefix_Some in Hp. exfalso. exact (Habsent "" rest Hp).
    + f_equal. apply IH. intros a b ->. exact (Habsent (String c a) b eq_refl).
Qed.

(** X21 (the email of a property). The email is the value of the property
    with its first "mailto:" removed: a value "mailto:" followed by an
    address yields the address (a second "mailto:" stays), a value in which
    "mailto:" does not occur, in this exact case, is kept as it is, and a
    property without value yields the empty string. *)
Theorem email_of_property (p : ICal.Property) :
  (forall address, ICal.firstValue p = Some ("mailto:" ++ address)%string ->
                   emailOf p = address)
  /\ (forall v, ICal.firstValue p = Some v ->
                (forall a b, v <> (a ++ "mailto:" ++ b)%string) -> emailOf p = v)
  /\ (ICal.firstValue p = None -> emailOf p = "").
Proof.
  unfold emailOf. split; [|split].
  - intros address ->. rewrite remove_first_eq.
    rewrite (strip_prefix_app "mailto:" address). reflexivity.
  - intros v -> Habsent. apply remove_first_absent. exact Habsent.
  - intros ->. reflexivity.
Qed.

Lemma email_of_property_witness :
  emailOf {| ICal.firstValue := Some "mailto:mailto:alice@example.org";
             ICal.cn := None; ICal.partstat := None |}
  = "mailto:alice@example.org".
Proof.
  apply (proj1 (email_of_property
                  {| ICal.firstValue := Some "mailto:mailto:alice@example.org";
                     ICal.cn := None; ICal.partstat := None |})).
  reflexivity.
Defined.

Lemma List_filter_sublist {A} (f : A -> bool) (l : list A) : List.filter f l `sublist_of` l.
Proof.
  induction l as [|x l IH]; simpl; [constructor|].
  destruct (f x); [apply sublist_skip | apply sublist_cons]; exact IH.
Qed.

Lemma elem_of_List_filter {A} (f : A -> bool) (l : list A) x :
  x ∈ List.filter f l <-> x ∈ l /\ f x = true.
Proof. rewrite !list_elem_of_In. apply filter_In. Qed.

(** X22 (the attendees of a parsed event). The callback keeps, in order,
    the attendees whose email is not empty and drops the others; every
    attendee kept has a non-empty display name as well, the CN parameter
    when there is a non-empty one and the email otherwise. *)
Theorem parsed_attendees (vevent : ICal.VEvent) :
  let kept := ParsedEvent.attendees (parseVEvent vevent) in
  Forall (fun a => ParsedAttendee.email a <> "" /\ ParsedAttendee.displayName a <> "") kept
  /\ kept `sublist_of` map parseAttendee (ICal.attendee vevent)
  /\ (forall p, p ∈ ICal.attendee vevent ->
        (emailOf p <> "" <-> parseAttendee p ∈ kept))
  /\ (forall p, ICal.cn p = None \/ ICal.cn p = Some "" ->
        ParsedAttendee.displayName (parseAttendee p) = emailOf p)
  /\ (forall p name, ICal.cn p = Some name -> name <> "" ->
        ParsedAttendee.displayName (parseAttendee p) = name).
Proof.
  cbn zeta. unfold parseVEvent. simpl. split; [|split; [|split; [|split]]].
  - apply Forall_forall. intros a Ha. apply elem_of_List_filter in Ha as [Ha Hemail].
    apply truthy_iff in Hemail. split; [exact Hemail|].
    apply (list_elem_of_fmap_1 parseAttendee) in Ha as (p & -> & _).
    simpl in *. apply or_default_truthy. exact Hemail.
  - apply List_filter_sublist.
  - intros p Hp. rewrite elem_of_List_filter. simpl. rewrite truthy_iff. split.
    + intros Hemail. split; [|exact Hemail].
      apply (list_elem_of_fmap_2 parseAttendee). exact Hp.
    + intros [_ Hemail]. exact Hemail.
  - intros p [Hcn|Hcn]; unfold parseAttendee, or_default; simpl; rewrite Hcn; reflexivity.
  - intros p name Hcn Hname. unfold parseAttendee, or_default. simpl. rewrite Hcn.
    apply truthy_iff in Hname. rewrite Hname. reflexivity.
Qed.

Lemma parsed_attendees_witness :
  map ParsedAttendee.email (ParsedEvent.attendees (parseVEvent invitation))
  = ["alice@example.org"; "bob@example.org"]
  /\ ParsedAttendee.displayName
       (parseAttendee {| ICal.firstValue := Some "bob@example.org"; ICal.cn := None;
                         ICal.partstat := Some "DELEGATED" |})
     = "bob@example.org".
Proof.
  split; [reflexivity|].
  apply (proj1 (proj2 (proj2 (proj2 (parsed_attendees invitation))))).
  left. reflexivity.
Defined.

Lemma or_else_None a b : or_else a b = None -> (a = None \/ a = Some "") /\ b = None.
Proof.
  unfold or_else. destruct a as [t|]; simpl; [|auto].
  destruct (truthy t) eqn:Ht; [discriminate|]. intros ->. split; [|reflexivity].
  right. f_equal. destruct (decide (t = "")) as [->|Hne]; [reflexivity|].
  apply truthy_iff in Hne. congruence.
Qed.

(** X23 (the defaults of a parsed event). The summary of a parsed event is
    never empty: it is the VEVENT's, or "(No title)" when that is missing or
    empty; a missing description or location becomes the empty string. The
    stamp is LAST-MODIFIED when present and DTSTAMP otherwise, and is absent
    only when the feed gives neither. The organizer is absent exactly when
    the VEVENT has no ORGANIZER property. *)
Theorem parsed_event_defaults (vevent : ICal.VEvent) :
  let p := parseVEvent vevent in
  ParsedEvent.summary p <> ""
  /\ (forall s, ICal.summary vevent = Some s -> s <> "" -> ParsedEvent.summary p = s)
  /\ (ICal.summary vevent = None \/ ICal.summary vevent = Some "" ->
      ParsedEvent.summary p = "(No title)")
  /\ (ICal.description vevent = None -> ParsedEvent.description p = "")
  /\ (ICal.location vevent = None -> ParsedEvent.location p = "")
  /\ (forall t, ICal.last_modified vevent = Some t -> t <> "" ->
        ParsedEvent.lastModified p = Some t)
  /\ (ICal.last_modified vevent = None -> ParsedEvent.lastModified p = ICal.dtstamp vevent)
  /\ (ParsedEvent.lastModified p = None ->
      (ICal.last_modified vevent = None \/ ICal.last_modified vevent = Some "")
      /\ ICal.dtstamp vevent = None)
  /\ (ParsedEvent.organizer p = None <-> ICal.organizer vevent = None).
Proof.
  cbn zeta. unfold parseVEvent. simpl.
  split; [apply or_default_truthy; discriminate|].
  split; [intros s -> Hs; unfold or_default; apply truthy_iff in Hs; rewrite Hs; reflexivity|].
  split; [intros [-> | ->]; reflexivity|].
  split; [intros ->; reflexivity|].
  split; [intros ->; reflexivity|].
  split; [intros t -> Ht; unfold or_else; simpl; apply truthy_iff in Ht; rewrite Ht;
          reflexivity|].
  split; [intros ->; reflexivity|].
  split; [apply or_else_None|].
  destruct (ICal.organizer vevent); simpl; split; congruence.
Qed.

Lemma parsed_event_defaults_witness :
  ParsedEvent.summary (parseVEvent invitation) = "(No title)".
Proof.
  apply (proj1 (proj2 (proj2 (parsed_event_defaults invitation)))).
  left. reflexivity.
Defined.

Lemma mapResponseStatus_Text partstat s :
  mapResponseStatus partstat = Text s ->
  s ∈ ["accepted"; "declined"; "tentative"; "needsAction"].
Proof.
  unfold mapResponseStatus. repeat case_decide; try case_bool_decide;
    intros [= <-]; set_unfold; tauto.
Qed.

Lemma toAttendee_Some a a' :
  toAttendee a = Some a' ->
  Attendee.email a' = ParsedAttendee.email a
  /\ Attendee.displayName a' = ParsedAttendee.displayName a
  /\ ParsedAttendee.responseStatus a = Text (Attendee.responseStatus a').
Proof.
  unfold toAttendee. destruct (ParsedAttendee.responseStatus a); [|discriminate].
  intros [= <-]. repeat split.
Qed.

Lemma List_filter_nil {A} (f : A -> bool) (l : list A) :
  List.filter f l = [] <-> Forall (fun x => f x = false) l.
Proof.
  induction l as [|x l IH]; simpl; [split; [constructor|reflexivity]|].
  destruct (f x) eqn:Hx.
  - split; [discriminate|]. intros H. apply Forall_cons in H as [H _]. congruence.
  - rewrite IH. split; [intros H; constructor; assumption|].
    intros H. apply Forall_cons in H as [_ H]. exact H.
Qed.

Lemma parsed_attendees_kept (vevent : ICal.VEvent) :
  Forall (fun a => ParsedAttendee.email a <> "" /\ ParsedAttendee.displayName a <> ""
                   /\ exists p, a = parseAttendee p)
         (ParsedEvent.attendees (parseVEvent vevent))
  /\ (ParsedEvent.attendees (parseVEvent vevent) = [] <->
      Forall (fun p => emailOf p = "") (ICal.attendee vevent)).
Proof.
  unfold parseVEvent. simpl. split.
  - apply Forall_forall. intros a Ha. apply elem_of_List_filter in Ha as [Ha Hemail].
    apply truthy_iff in Hemail. split; [exact Hemail|].
    apply (list_elem_of_fmap_1 parseAttendee) in Ha as (p & -> & _).
    split; [|eauto]. simpl in *. apply or_default_truthy. exact Hemail.
  - rewrite List_filter_nil, Forall_fmap. apply Forall_iff. intros p. unfold compose. simpl.
    split.
    + intros Hfalse. destruct (decide (emailOf p = "")) as [Heq|Hne]; [exact Heq|].
      apply truthy_iff in Hne. congruence.
    + intros ->. reflexivity.
Qed.

(** X24 (from the feed to the request body). For a VEVENT none of whose
    attendees has a PARTSTAT naming an inherited member, the parsed event is
    one the reconciler can take, and the body it sends for it has a
    non-empty summary, the VEVENT's uid as [outlookSyncUid], and either no
    [attendees] property, exactly when every ATTENDEE has an empty email, or
    attendees that all have a non-empty email, a non-empty display name and
    one of the four response statuses. *)
Theorem parsed_event_body (vevent : ICal.VEvent) :
  (Forall (fun p => forall s, ICal.partstat p = Some s -> s ∉ inheritedNames)
          (ICal.attendee vevent) ->
   exists e, toOutlookEvent (parseVEvent vevent) = Some e)
  /\ (forall e, toOutlookEvent (parseVEvent vevent) = Some e ->
        let b := googleEventBody e in
        EventBody.summary b <> ""
        /\ EventBody.outlookSyncUid b = ICal.uid vevent
        /\ (forall l, EventBody.attendees b = Some l ->
              Forall (fun a => Attendee.email a <> ""
                               /\ Attendee.displayName a <> ""
                               /\ Attendee.responseStatus a
                                  ∈ ["accepted"; "declined"; "tentative"; "needsAction"]) l)
        /\ (EventBody.attendees b = None <->
            Forall (fun p => emailOf p = "") (ICal.attendee vevent))).
Proof.
  split.
  - intros Hpartstat. unfold toOutlookEvent.
    assert (Hsome : is_Some (mapM toAttendee (ParsedEvent.attendees (parseVEvent vevent)))).
    { apply mapM_is_Some_2, Forall_forall. intros a Ha. simpl in Ha.
      apply elem_of_List_filter in Ha as [Ha _].
      apply (list_elem_of_fmap_1 parseAttendee) in Ha as (p & -> & Hp).
      unfold compose, toAttendee, parseAttendee. simpl.
      assert (Hown : or_default (ICal.partstat p) "NEEDS-ACTION" ∉ inheritedNames).
      { unfold or_default. destruct (ICal.partstat p) as [s|] eqn:Hs; [|compute_done].
        destruct (truthy s); [|compute_done].
        exact (proj1 (Forall_forall _ _) Hpartstat p Hp s Hs). }
      unfold mapResponseStatus. rewrite (bool_decide_eq_false_2 _ Hown).
      repeat case_decide; eauto. }
    destruct Hsome as [l ->]. eauto.
  - intros e He. unfold toOutlookEvent in He.
    destruct (mapM toAttendee (ParsedEvent.attendees (parseVEvent vevent))) as [l|] eqn:Hl;
      [|discriminate].
    injection He as <-. apply mapM_Some_1 in Hl.
    destruct (parsed_attendees_kept vevent) as [Hkept Hempty].
    cbn zeta. unfold googleEventBody. simpl.
    split; [apply or_default_truthy; discriminate|]. split; [reflexivity|].
    assert (Hl' : Forall (fun a => Attendee.email a <> ""
                               /\ Attendee.displayName a <> ""
                               /\ Attendee.responseStatus a
                                  ∈ ["accepted"; "declined"; "tentative"; "needsAction"]) l).
    { eapply Forall2_Forall_r; [exact Hl|].
      eapply Forall_impl; [exact Hkept|]. simpl.
      intros a (Hemail & Hname & p & ->) a' Ha'.
      apply toAttendee_Some in Ha' as (-> & -> & Hstatus).
      split; [exact Hemail|]. split; [exact Hname|].
      eapply mapResponseStatus_Text. exact Hstatus. }
    split.
    + intros l0. destruct l as [|a l]; simpl; [discriminate|]. intros [= <-]. exact Hl'.
    + rewrite <- Hempty. apply Forall2_length in Hl.
      destruct l as [|a l]; simpl in *.
      * split; [intros _|reflexivity].
        destruct (List.filter _ _); [reflexivity|discriminate].
      * split; [discriminate|]. intros Hnil. rewrite Hnil in Hl. discriminate.
Qed.

Lemma parsed_event_body_witness :
  exists e, toOutlookEvent (parseVEvent invitation) = Some e.
Proof.
  apply (proj1 (parsed_event_body invitation)).
  repeat constructor; intros s [= <-]; compute_done.
Defined.

(** ** How many requests a run makes *)

Lemma length_by_method (reqs : list Request) :
  Forall (fun req => method req = POST \/ method req = PATCH \/ method req = DELETE) reqs ->
  length reqs = countMethod POST reqs + countMethod PATCH reqs + countMethod DELETE reqs.
Proof.
  induction reqs as [|req reqs IH]; intros Hall; [reflexivity|].
  apply Forall_cons in Hall as [Hreq Hall]. rewrite !countMethod_cons. cbn [length].
  rewrite (IH Hall).
  destruct Hreq as [-> | [-> | ->]]; simpl; lia.
Qed.

Lemma length_omap_le {A B} (f : A -> option B) (l : list A) : length (omap f l) <= length l.
Proof.
  induction l as [|x l IH]; [reflexivity|].
  rewrite omap_cons_app, length_app. destruct (f x); simpl; lia.
Qed.

Section RequestCount.
Context {W : Type}.
Variable network : Request -> W -> (Response + string) * W.
Variable now : W -> string.
Variable accessToken calendarId : string.

(** X11 (one request per counted mutation). In a run that returns, the
    number of requests handed to [fetch] is created + updated + deleted: an
    unchanged event costs no request, and no event or entry costs two. It is
    at most the number of source events plus the number of items of the
    snapshot. *)
Theorem one_request_per_mutation outlookEvents googleEvents (r : Run W) res r' :
  syncEvents network now accessToken calendarId outlookEvents googleEvents r = (Returned res, r') ->
  exists issued,
    sent r' = sent r ++ issued
    /\ length issued
       = Stats.created (stats res) + Stats.updated (stats res) + Stats.deleted (stats res)
    /\ length issued <= length outlookEvents + length googleEvents.
Proof.
  intros Hrun. apply syncEvents_returned in Hrun as (Hstats & Hsent & _).
  exists (planned accessToken calendarId (indexByUid googleEvents) outlookEvents).
  split; [exact Hsent|].
  destruct (plannedStats_counts accessToken calendarId (indexByUid googleEvents) outlookEvents)
    as (Hc & Hu & Hd & Hgone & _).
  rewrite Hstats. split.
  - rewrite Hc, Hu, Hd. apply length_by_method.
    unfold planned. rewrite deletions_planned. apply Forall_app. split.
    + eapply Forall_impl; [apply requestFor_addressed|]. simpl. tauto.
    + eapply Forall_impl; [apply deletions_addressed|]. simpl. tauto.
  - unfold planned. rewrite length_app, deletions_planned, length_map.
    pose proof (length_omap_le (requestFor accessToken calendarId (indexByUid googleEvents))
                  outlookEvents).
    pose proof (length_filter (fun entry : string * GoogleEvent.t =>
                                 entry.1 ∉ uids outlookEvents) (indexByUid googleEvents)).
    assert (length (indexByUid googleEvents) <= length googleEvents).
    { clear. induction googleEvents as [|x g IH] using rev_ind; [reflexivity|].
      rewrite indexByUid_snoc, length_app. simpl.
      destruct (ownedUid x) as [uid|]; [|lia].
      pose proof (length_set (indexByUid g) uid x). lia. }
    unfold disappeared. lia.
Qed.
End RequestCount.

Lemma one_request_per_mutation_witness :
  exists issued,
    sent (reconcile "tok" "cal" [standupMoved; review] calendarA).2 = [] ++ issued
    /\ length issued = 1 + 1 + 0
    /\ length issued <= 2 + 2.
Proof.
  apply (one_request_per_mutation Calendar.serve Calendar.now "tok" "cal"
           [standupMoved; review] calendarA (fresh_run calendarA)
           {| stats := {| Stats.created := 1; Stats.updated := 1; Stats.deleted := 0;
                          Stats.unchanged := 0 |};
              timestamp := Calendar.now [] |}
           (reconcile "tok" "cal" [standupMoved; review] calendarA).2).
  reflexivity.
Defined.

Lemma index_ignores_foreign_witness :
  GoogleEvent.outlookSyncUid (stored "e1" standup) = Some "A" /\ "A" <> "".
Proof.
  apply (proj1 (proj2 (proj2 (index_ignores_foreign calendarA))) "A" (stored "e1" standup)).
  apply list_elem_of_here.
Defined.

Lemma desired_body_shape_witness :
  EventBody.attendees (googleEventBody standupAlone) = None.
Proof.
  apply (proj1 (proj2 (desired_body_shape standupAlone))). reflexivity.
Defined.
